(** * The images-to-dataset pipeline of nerfstudio

    A shallow embedding of [ImagesToNerfstudioDataset.main]
    (nerfstudio/process_data/images_to_nerfstudio_dataset.py) and the
    properties of its control flow: which collaborators are invoked, in
    which order, with which arguments, and which errors abort a run.

    The method is a straight-line orchestration of collaborators that live
    in other modules (image utilities, equirectangular utilities, the COLMAP
    converter base class).  They are taken as an interface, [Externals]; the
    method itself is embedded statement by statement in a state-and-error
    monad whose state is the Python frame of [main]: the object [self], the
    local variables, the world the collaborators act on, and the trace of
    collaborator invocations. *)

From Stdlib Require Import ZArith Ascii String List Floats DecimalString.
From stdpp Require Import base gmap strings list sorting.

Local Open Scope string_scope.
Local Open Scope list_scope.

(** ** Python values used by [main] *)

Module Py.

(** [str(n)] for an integer. *)
Definition str_int (z : Z) : string := NilZero.string_of_int (Z.to_int z).

Fixpoint zeros (n : nat) : string :=
  match n with
  | O => ""
  | S n' => String "0"%char (zeros n')
  end.

(** [f"{z:05}"]: sign-aware zero padding to a minimum width of 5. *)
Definition format_05 (z : Z) : string :=
  let digits := NilZero.string_of_uint (N.to_uint (Z.abs_N z)) in
  if (z <? 0)%Z
  then "-" +:+ zeros (4 - String.length digits) +:+ digits
  else zeros (5 - String.length digits) +:+ digits.

(** [dict(items)]: a later pair overwrites an earlier one with the same key. *)
Definition dict {K V : Type} `{Countable K} (items : list (K * V)) : gmap K V :=
  foldl (λ m kv, <[kv.1 := kv.2]> m) ∅ items.

(** [len(d)] *)
Definition len {K V : Type} `{Countable K} (d : gmap K V) : Z := Z.of_nat (size d).

(** [enumerate(xs, start)] *)
Fixpoint enumerate {A : Type} (start : Z) (xs : list A) : list (Z * A) :=
  match xs with
  | [] => []
  | x :: xs' => (start, x) :: enumerate (start + 1) xs'
  end.

(** Iterating over an ordered dict yields its keys in insertion order; the
    dict is held as the list of its items in that order. *)
Definition keys {K V : Type} (d : list (K * V)) : list K := d.*1.

End Py.

(** ** pathlib

    [pathlib.Path] is used through a handful of operations; the development
    is parametric in them. *)

Class PathLib (Path : Type) := {
  path_eq_dec :: EqDecision Path;
  (** [Path(s)] *)
  Path_of : string → Path;
  (** [p / q] *)
  joinpath : Path → Path → Path;
  (** [p.parent] *)
  parent : Path → Path;
  (** [p.name] *)
  name : Path → string;
  (** [p.suffix] *)
  suffix : Path → string;
  (** [str(p)], as an f-string renders a path *)
  str_path : Path → string
}.

Declare Scope path_scope.
Delimit Scope path_scope with path.
Notation "p // q" := (joinpath p q) (at level 40, left associativity) : path_scope.
(** [p / "literal"]: the right operand is a [str]. *)
Notation "p /' s" := (joinpath p (Path_of s)) (at level 40, left associativity) : path_scope.
Local Open Scope path_scope.

(** [crop_factor]: a tuple of four floats. *)
Definition Crop : Type := float * float * float * float.

Definition zero_crop : Crop := (0.0, 0.0, 0.0, 0.0)%float.

(** ** The data of a run *)

Section Pipeline.

Context {Path : Type} `{PathLib Path} {World : Type}.

(** The fields of the dataclass that [main] reads: those declared in the
    class itself ([percent_radius_crop], [frame_mask_path], [depth_path]) and
    those it inherits from the converter base classes. *)
Record Self := {
  data : Path;
  output_dir : Path;
  verbose : bool;
  camera_type : string;
  images_per_equirect : Z;
  crop_factor : Crop;
  num_downscales : Z;
  skip_colmap : bool;
  skip_image_processing : bool;
  colmap_model_path : Path;
  percent_radius_crop : float;
  frame_mask_path : string;
  depth_path : string
}.

(** [self.data = d] and [self.camera_type = c], the two attributes [main]
    assigns. *)
Definition with_data (d : Path) (s : Self) : Self :=
  {| data := d; output_dir := output_dir s; verbose := verbose s;
     camera_type := camera_type s; images_per_equirect := images_per_equirect s;
     crop_factor := crop_factor s; num_downscales := num_downscales s;
     skip_colmap := skip_colmap s; skip_image_processing := skip_image_processing s;
     colmap_model_path := colmap_model_path s;
     percent_radius_crop := percent_radius_crop s;
     frame_mask_path := frame_mask_path s; depth_path := depth_path s |}.

Definition with_camera_type (c : string) (s : Self) : Self :=
  {| data := data s; output_dir := output_dir s; verbose := verbose s;
     camera_type := c; images_per_equirect := images_per_equirect s;
     crop_factor := crop_factor s; num_downscales := num_downscales s;
     skip_colmap := skip_colmap s; skip_image_processing := skip_image_processing s;
     colmap_model_path := colmap_model_path s;
     percent_radius_crop := percent_radius_crop s;
     frame_mask_path := frame_mask_path s; depth_path := depth_path s |}.

(** The value of the local [mask_path] when the manifest is built: a
    [Path] (the masks directory) or the [str] literal assigned on line 132. *)
Inductive MaskRef :=
  | MaskDir (p : Path)
  | MaskStr (s : string).

(** One entry per collaborator invocation and per console message, in
    program order, with the arguments as passed. *)
Inductive Event :=
  | EvLog (msg : string)
  | EvComputeResolution (image_dir : Path) (num_images : Z)
  | EvGenerateProjections (image_dir : Path) (size : Z * Z) (num_images : Z) (crop : Crop)
  | EvCopyImages (src image_dir : Path) (crop : Crop) (verbose : bool)
                 (num_downscales : Z) (nearest_neighbor : option bool)
  | EvSaveMask (image_dir : Path) (num_downscales : Z) (crop : Crop)
               (percent_radius : float) (frame_mask_path : string)
  | EvMkdir (p : Path)
  | EvListImages (src : Path)
  | EvRunColmap (s : Self)
  | EvExportDepth (s : Self)
  | EvSaveTransforms (s : Self) (num_frames : Z) (image_id_to_depth_path : gmap Z Path)
                     (mask : option MaskRef) (image_rename_map : option (gmap string string)).

(** The collaborators, named as [main] calls them. *)
Inductive Collaborator :=
  | compute_resolution_from_equirect_
  | generate_planar_projections_from_equirectangular_
  | copy_images_
  | save_mask_
  | mkdir_
  | list_images_
  | run_colmap_
  | export_depth_
  | save_transforms_.

(** How a collaborator fails. *)
Inductive Failure :=
  | ZeroUsableImages
  | Failed (msg : string).

(** What ends a run early: a [RuntimeError] raised by [main] itself, the
    [UnboundLocalError] (a [NameError]) of reading a local that no executed
    statement assigned, or a failure propagating out of a collaborator. *)
Inductive Exn :=
  | RuntimeError (msg : string)
  | UnboundLocalError (var : string)
  | Propagated (who : Collaborator) (f : Failure).

(** A collaborator acts on the world and returns or fails. *)
Definition Ext (A : Type) : Type := World → (Failure + A) * World.

(** Everything [main] uses that is defined outside this file. *)
Record Externals := {
  (** [ColmapConverterToNerfstudioDataset.default_colmap_path()] *)
  default_colmap_path : Path;
  (** the inherited properties [self.image_dir] and
      [self.absolute_colmap_model_path] *)
  image_dir : Self → Path;
  absolute_colmap_model_path : Self → Path;
  (** [p.exists()] *)
  path_exists : Path → World → bool;
  (** [p.mkdir(parents=True, exist_ok=True)] *)
  mkdir : Path → Ext unit;
  compute_resolution_from_equirect : Path → Z → Ext (Z * Z);
  generate_planar_projections_from_equirectangular :
    Path → Z * Z → Z → Crop → Ext Path;
  (** [process_data_utils.copy_images]; the result is the ordered dict from
      source path to copied path, as its list of items; the last argument is
      [nearest_neighbor] when passed *)
  copy_images : Path → Path → Crop → bool → Z → option bool → Ext (list (Path * Path));
  save_mask : Path → Z → Crop → float → string → Ext (option Path);
  list_images : Path → Ext (list Path);
  _run_colmap : Self → Ext unit;
  _export_depth : Self → Ext (gmap Z Path * list string);
  _save_transforms :
    Self → Z → gmap Z Path → option MaskRef → option (gmap string string) →
    Ext (list string)
}.

(** The frame of [main].  A local that some path leaves unassigned is an
    [option]: [None] is "unbound".  [image_rename_map] is bound throughout and
    its own [option] is Python's [Optional]. *)
Record State := {
  self : Self;
  require_cameras_exist : bool;
  image_rename_map : option (gmap string string);
  summary_log : list string;
  num_frames : option Z;
  output_depth_path : option Path;
  copied_depth_images : option (list (Path * Path));
  image_id_to_depth_path : option (gmap Z Path);
  world : World;
  trace : list Event
}.

Definition set_self (v : Self) (st : State) : State :=
  {| self := v; require_cameras_exist := require_cameras_exist st;
     image_rename_map := image_rename_map st; summary_log := summary_log st;
     num_frames := num_frames st; output_depth_path := output_depth_path st;
     copied_depth_images := copied_depth_images st;
     image_id_to_depth_path := image_id_to_depth_path st;
     world := world st; trace := trace st |}.

Definition set_require_cameras_exist (v : bool) (st : State) : State :=
  {| self := self st; require_cameras_exist := v;
     image_rename_map := image_rename_map st; summary_log := summary_log st;
     num_frames := num_frames st; output_depth_path := output_depth_path st;
     copied_depth_images := copied_depth_images st;
     image_id_to_depth_path := image_id_to_depth_path st;
     world := world st; trace := trace st |}.

Definition set_image_rename_map (v : option (gmap string string)) (st : State) : State :=
  {| self := self st; require_cameras_exist := require_cameras_exist st;
     image_rename_map := v; summary_log := summary_log st;
     num_frames := num_frames st; output_depth_path := output_depth_path st;
     copied_depth_images := copied_depth_images st;
     image_id_to_depth_path := image_id_to_depth_path st;
     world := world st; trace := trace st |}.

Definition set_summary_log (v : list string) (st : State) : State :=
  {| self := self st; require_cameras_exist := require_cameras_exist st;
     image_rename_map := image_rename_map st; summary_log := v;
     num_frames := num_frames st; output_depth_path := output_depth_path st;
     copied_depth_images := copied_depth_images st;
     image_id_to_depth_path := image_id_to_depth_path st;
     world := world st; trace := trace st |}.

Definition set_num_frames (v : Z) (st : State) : State :=
  {| self := self st; require_cameras_exist := require_cameras_exist st;
     image_rename_map := image_rename_map st; summary_log := summary_log st;
     num_frames := Some v; output_depth_path := output_depth_path st;
     copied_depth_images := copied_depth_images st;
     image_id_to_depth_path := image_id_to_depth_path st;
     world := world st; trace := trace st |}.

Definition set_output_depth_path (v : Path) (st : State) : State :=
  {| self := self st; require_cameras_exist := require_cameras_exist st;
     image_rename_map := image_rename_map st; summary_log := summary_log st;
     num_frames := num_frames st; output_depth_path := Some v;
     copied_depth_images := copied_depth_images st;
     image_id_to_depth_path := image_id_to_depth_path st;
     world := world st; trace := trace st |}.

Definition set_copied_depth_images (v : list (Path * Path)) (st : State) : State :=
  {| self := self st; require_cameras_exist := require_cameras_exist st;
     image_rename_map := image_rename_map st; summary_log := summary_log st;
     num_frames := num_frames st; output_depth_path := output_depth_path st;
     copied_depth_images := Some v;
     image_id_to_depth_path := image_id_to_depth_path st;
     world := world st; trace := trace st |}.

Definition set_image_id_to_depth_path (v : gmap Z Path) (st : State) : State :=
  {| self := self st; require_cameras_exist := require_cameras_exist st;
     image_rename_map := image_rename_map st; summary_log := summary_log st;
     num_frames := num_frames st; output_depth_path := output_depth_path st;
     copied_depth_images := copied_depth_images st;
     image_id_to_depth_path := Some v;
     world := world st; trace := trace st |}.

Definition set_world (v : World) (st : State) : State :=
  {| self := self st; require_cameras_exist := require_cameras_exist st;
     image_rename_map := image_rename_map st; summary_log := summary_log st;
     num_frames := num_frames st; output_depth_path := output_depth_path st;
     copied_depth_images := copied_depth_images st;
     image_id_to_depth_path := image_id_to_depth_path st;
     world := v; trace := trace st |}.

Definition record_event (ev : Event) (st : State) : State :=
  {| self := self st; require_cameras_exist := require_cameras_exist st;
     image_rename_map := image_rename_map st; summary_log := summary_log st;
     num_frames := num_frames st; output_depth_path := output_depth_path st;
     copied_depth_images := copied_depth_images st;
     image_id_to_depth_path := image_id_to_depth_path st;
     world := world st; trace := trace st ++ [ev] |}.

(** The frame on entry to [main]: nothing assigned, nothing invoked. *)
Definition initial (s : Self) (w : World) : State :=
  {| self := s; require_cameras_exist := false; image_rename_map := None;
     summary_log := []; num_frames := None; output_depth_path := None;
     copied_depth_images := None; image_id_to_depth_path := None;
     world := w; trace := [] |}.

(** ** The monad of [main] *)

Definition M (A : Type) : Type := State → (Exn + A) * State.

Definition ret {A : Type} (a : A) : M A := λ st, (inr a, st).

Definition bind {A B : Type} (m : M A) (k : A → M B) : M B :=
  λ st, match m st with
        | (inr a, st') => k a st'
        | (inl e, st') => (inl e, st')
        end.

(** [raise e] *)
Definition raise {A : Type} (e : Exn) : M A := λ st, (inl e, st).

Definition gets {A : Type} (f : State → A) : M A := λ st, (inr (f st), st).

Definition modify (f : State → State) : M unit := λ st, (inr tt, f st).

(** Reading a local variable: an unbound one raises. *)
Definition read_local {A : Type} (var : string) (f : State → option A) : M A :=
  λ st, match f st with
        | Some a => (inr a, st)
        | None => (inl (UnboundLocalError var), st)
        end.

(** Invoking a collaborator: the invocation is recorded, then the
    collaborator runs on the current world; its failure propagates. *)
Definition call {A : Type} (who : Collaborator) (ev : Event) (f : Ext A) : M A :=
  λ st, let st1 := record_event ev st in
        match f (world st1) with
        | (inr a, w) => (inr a, set_world w st1)
        | (inl e, w) => (inl (Propagated who e), set_world w st1)
        end.

(** [CONSOLE.log(msg)] *)
Definition console_log (msg : string) : M unit := modify (record_event (EvLog msg)).

(** [for x in xs: body(x)] *)
Fixpoint for_each {A : Type} (xs : list A) (body : A → M unit) : M unit :=
  match xs with
  | [] => ret tt
  | x :: xs' => bind (body x) (λ _, for_each xs' body)
  end.

End Pipeline.

Arguments Self : clear implicits.
Arguments MaskRef : clear implicits.
Arguments Event : clear implicits.
Arguments Externals : clear implicits.
Arguments State : clear implicits.
Arguments M : clear implicits.
Arguments Ext : clear implicits.

Declare Scope pipeline_scope.
Delimit Scope pipeline_scope with pipeline.
Notation "x <- m ;; k" := (bind m (λ x, k))
  (at level 100, m at next level, right associativity) : pipeline_scope.
Notation "m ;;; k" := (bind m (λ _, k))
  (at level 100, right associativity) : pipeline_scope.
Local Open Scope pipeline_scope.

(** ** [ImagesToNerfstudioDataset.main] *)

Section Main.

Context {Path : Type} `{PathLib Path} {World : Type}.
Variable X : Externals Path World.

Local Notation "'Run'" := (M Path World).

(** [repr] of the pair [pers_size], as the f-string on line 61 renders it. *)
Definition repr_size (size : Z * Z) : string :=
  "(" +:+ Py.str_int size.1 +:+ ", " +:+ Py.str_int size.2 +:+ ")".

(** Lines 48-54: an explicitly supplied COLMAP model path. *)
Definition check_colmap_model_path : Run unit :=
  modify (set_require_cameras_exist false) ;;;
  s <- gets self ;;
  if bool_decide (colmap_model_path s ≠ default_colmap_path X) then
    (if negb (skip_colmap s)
     then raise (RuntimeError
            "The --colmap-model-path can only be used when --skip-colmap is not set.")
     else ret tt) ;;;
    present <- gets (λ st, path_exists X (output_dir s // colmap_model_path s) (world st)) ;;
    (if negb present
     then raise (RuntimeError
            ("The colmap-model-path " +:+ str_path (output_dir s // colmap_model_path s)
               +:+ " does not exist."))
     else ret tt) ;;;
    modify (set_require_cameras_exist true)
  else ret tt.

(** Lines 58-65: planar projections of equirectangular input. *)
Definition equirect_block : Run unit :=
  s <- gets self ;;
  if String.eqb (camera_type s) "equirectangular" then
    pers_size <- call compute_resolution_from_equirect_
      (EvComputeResolution (data s) (images_per_equirect s))
      (compute_resolution_from_equirect X (data s) (images_per_equirect s)) ;;
    console_log ("Generating " +:+ Py.str_int (images_per_equirect s) +:+ " "
                   +:+ repr_size pers_size
                   +:+ " sized images per equirectangular image") ;;;
    s <- gets self ;;
    d <- call generate_planar_projections_from_equirectangular_
      (EvGenerateProjections (data s) pers_size (images_per_equirect s) (crop_factor s))
      (generate_planar_projections_from_equirectangular X
         (data s) pers_size (images_per_equirect s) (crop_factor s)) ;;
    modify (λ st, set_self (with_data d (self st)) st) ;;;
    modify (λ st, set_self (with_camera_type "perspective" (self st)) st)
  else ret tt.

(** [summary_log.append(line)] and [summary_log += lines] *)
Definition summary_extend (lines : list string) : Run unit :=
  modify (λ st, set_summary_log (summary_log st ++ lines) st).

Definition starting_with (n : Z) : string :=
  "Starting with " +:+ Py.str_int n +:+ " images".

(** Lines 94-104: the external depth directory is copied next to the images. *)
Definition copy_depth_block : Run unit :=
  s <- gets self ;;
  if negb (String.eqb (depth_path s) "") then
    modify (set_output_depth_path (parent (image_dir X s) /' "depth")) ;;;
    out <- read_local "output_depth_path" output_depth_path ;;
    call mkdir_ (EvMkdir out) (mkdir X out) ;;;
    s <- gets self ;;
    out <- read_local "output_depth_path" output_depth_path ;;
    copied <- call copy_images_
      (EvCopyImages (Path_of (depth_path s)) out (crop_factor s) (verbose s)
         (num_downscales s) (Some true))
      (copy_images X (Path_of (depth_path s)) out (crop_factor s) (verbose s)
         (num_downscales s) (Some true)) ;;
    modify (set_copied_depth_images copied)
  else ret tt.

(** Lines 69-109: copy and downscale the images, or only count them. *)
Definition image_block : Run unit :=
  s <- gets self ;;
  if negb (skip_image_processing s) then
    image_rename_map_paths <- call copy_images_
      (EvCopyImages (data s) (image_dir X s) (crop_factor s) (verbose s)
         (num_downscales s) None)
      (copy_images X (data s) (image_dir X s) (crop_factor s) (verbose s)
         (num_downscales s) None) ;;
    let renamed := Py.dict (map (λ ab, (name ab.1, name ab.2)) image_rename_map_paths) in
    modify (set_image_rename_map (Some renamed)) ;;;
    modify (set_num_frames (Py.len renamed)) ;;;
    n <- read_local "num_frames" num_frames ;;
    summary_extend [starting_with n] ;;;
    s <- gets self ;;
    mask_path <- call save_mask_
      (EvSaveMask (image_dir X s) (num_downscales s) zero_crop
         (percent_radius_crop s) (frame_mask_path s))
      (save_mask X (image_dir X s) (num_downscales s) zero_crop
         (percent_radius_crop s) (frame_mask_path s)) ;;
    (match mask_path with
     | Some _ => summary_extend ["Saved mask(s)"]
     | None => ret tt
     end) ;;;
    copy_depth_block
  else
    s <- gets self ;;
    images <- call list_images_ (EvListImages (data s)) (list_images X (data s)) ;;
    modify (set_num_frames (Z.of_nat (length images))) ;;;
    n <- read_local "num_frames" num_frames ;;
    (if (n =? 0)%Z
     then raise (RuntimeError "No usable images in the data folder.")
     else ret tt) ;;;
    n <- read_local "num_frames" num_frames ;;
    summary_extend [starting_with n].

(** Lines 111-116: run COLMAP unless skipped. *)
Definition colmap_block : Run unit :=
  s <- gets self ;;
  if negb (skip_colmap s) then
    modify (set_require_cameras_exist true) ;;;
    s <- gets self ;;
    call run_colmap_ (EvRunColmap s) (_run_colmap X s) ;;;
    modify (set_image_rename_map None)
  else ret tt.

(** Line 125: one iteration of the loop over the copied depth images. *)
Definition depth_entry (cv : Z * Path) : Run unit :=
  out <- read_local "output_depth_path" output_depth_path ;;
  table <- read_local "image_id_to_depth_path" image_id_to_depth_path ;;
  modify (set_image_id_to_depth_path
            (<[cv.1 := out /' ("frame_" +:+ Py.format_05 cv.1 +:+ suffix cv.2)]> table)).

(** Lines 118-125: the depth table, exported or built from the copies. *)
Definition depth_block : Run unit :=
  s <- gets self ;;
  if String.eqb (depth_path s) "" then
    exported <- call export_depth_ (EvExportDepth s) (_export_depth X s) ;;
    modify (set_image_id_to_depth_path exported.1) ;;;
    summary_extend exported.2
  else
    modify (set_image_id_to_depth_path ∅) ;;;
    copied <- read_local "copied_depth_images" copied_depth_images ;;
    for_each (Py.enumerate 1 (Py.keys copied)) depth_entry.

(** Lines 126-127: the camera file must exist when it is required. *)
Definition cameras_check : Run unit :=
  required <- gets require_cameras_exist ;;
  if required then
    s <- gets self ;;
    present <- gets (λ st, path_exists X (absolute_colmap_model_path X s /' "cameras.bin")
                             (world st)) ;;
    if negb present
    then raise (RuntimeError
           ("Could not find existing COLMAP results ("
              +:+ str_path (colmap_model_path s /' "cameras.bin") +:+ ")."))
    else ret tt
  else ret tt.

(** Lines 129-134: the mask reference handed to the manifest builder. *)
Definition resolve_mask : Run (option (MaskRef Path)) :=
  s <- gets self ;;
  let mask_path := parent (image_dir X s) /' "masks" in
  present <- gets (λ st, path_exists X mask_path (world st)) ;;
  if present then
    if String.eqb (frame_mask_path s) ""
    then ret (Some (MaskStr "masks/mask.png"))
    else ret (Some (MaskDir mask_path))
  else ret None.

(** Lines 136-146: write the manifest, then print the summary. *)
Definition save_block (mask_path : option (MaskRef Path)) : Run unit :=
  s <- gets self ;;
  n <- read_local "num_frames" num_frames ;;
  table <- read_local "image_id_to_depth_path" image_id_to_depth_path ;;
  rename <- gets image_rename_map ;;
  lines <- call save_transforms_ (EvSaveTransforms s n table mask_path rename)
    (_save_transforms X s n table mask_path rename) ;;
  summary_extend lines ;;;
  console_log "[bold green]:tada: :tada: :tada: All DONE :tada: :tada: :tada:" ;;;
  summaries <- gets summary_log ;;
  for_each summaries console_log.

(** Lines 129-146. *)
Definition manifest : Run unit :=
  mask_path <- resolve_mask ;;
  save_block mask_path.

(** [main] is the sequence of its stages.  Each prefix of the sequence is
    named after the stage it leads up to, so that "the run reaches the
    stage" can be said of it. *)
Definition to_equirect : Run unit :=
  check_colmap_model_path ;;;
  modify (set_image_rename_map None).

Definition to_images : Run unit :=
  to_equirect ;;;
  equirect_block ;;;
  modify (set_summary_log []).

Definition to_colmap : Run unit :=
  to_images ;;;
  image_block.

Definition to_depth : Run unit :=
  to_colmap ;;;
  colmap_block.

Definition to_cameras_check : Run unit :=
  to_depth ;;;
  depth_block.

Definition to_manifest : Run unit :=
  to_cameras_check ;;;
  cameras_check.

Definition main : Run unit :=
  to_manifest ;;;
  manifest.

(** The remainder of [main] from each stage on. *)
Definition from_cameras_check : Run unit :=
  cameras_check ;;;
  manifest.

Definition from_depth : Run unit :=
  depth_block ;;;
  from_cameras_check.

Definition from_colmap : Run unit :=
  colmap_block ;;;
  from_depth.

Definition from_images : Run unit :=
  image_block ;;;
  from_colmap.

(** A run from the entry of [main]. *)
Definition run (s : Self Path) (w : World) : (Exn + unit) * State Path World :=
  main (initial s w).

End Main.

(** ** The copy collaborator, from the specification *)

Section SpecModel.

Context {Path : Type} `{PathLib Path} {World : Type}.

(** Modelled from the spec: [process_data_utils.copy_images] is not among
    the sources of this file.  The specification gives the copy step the
    error condition "zero usable images found → fatal, pipeline aborts before
    reconstruction" (4.1) and names [list_images] as the collaborator that
    finds the images of a directory (6).  The model puts exactly that guard
    in front of an arbitrary copier: it lists the source, fails when nothing
    is found, and otherwise lets the copier of [X] do the work. *)
Definition copy_images_checked (X : Externals Path World)
    (src image_dir : Path) (crop : Crop) (verbose : bool) (num_downscales : Z)
    (nearest_neighbor : option bool) : Ext World (list (Path * Path)) :=
  λ w, match list_images X src w with
       | (inr [], w') => (inl ZeroUsableImages, w')
       | (inr (_ :: _), w') =>
           copy_images X src image_dir crop verbose num_downscales nearest_neighbor w'
       | (inl e, w') => (inl e, w')
       end.

(** The collaborators of [X] with the copy step as the specification
    describes it. *)
Definition with_checked_copy (X : Externals Path World) : Externals Path World :=
  {| default_colmap_path := default_colmap_path X;
     image_dir := image_dir X;
     absolute_colmap_model_path := absolute_colmap_model_path X;
     path_exists := path_exists X;
     mkdir := mkdir X;
     compute_resolution_from_equirect := compute_resolution_from_equirect X;
     generate_planar_projections_from_equirectangular :=
       generate_planar_projections_from_equirectangular X;
     copy_images := copy_images_checked X;
     save_mask := save_mask X;
     list_images := list_images X;
     _run_colmap := _run_colmap X;
     _export_depth := _export_depth X;
     _save_transforms := _save_transforms X |}.

End SpecModel.

(** ** A concrete instance: POSIX paths and a world of files

    Used to run the pipeline on concrete inputs. *)

Module Posix.

Record path := { absolute : bool; parts : list string }.

#[global] Instance path_eq_dec : EqDecision path.
Proof. solve_decision. Defined.

(** The components of a string between slashes. *)
Fixpoint split_slash (cur : string) (s : string) : list string :=
  match s with
  | EmptyString => [cur]
  | String c s' =>
      if Ascii.eqb c "/"%char then cur :: split_slash "" s'
      else split_slash (cur +:+ String c "") s'
  end.

Definition is_component (c : string) : bool :=
  negb (String.eqb c "") && negb (String.eqb c ".").

Definition of_string (s : string) : path :=
  {| absolute := match s with String c _ => Ascii.eqb c "/"%char | _ => false end;
     parts := filter (λ c, is_component c = true) (split_slash "" s) |}.

Definition join (p q : path) : path :=
  if absolute q then q
  else {| absolute := absolute p; parts := parts p ++ parts q |}.

Definition dirname (p : path) : path :=
  {| absolute := absolute p; parts := removelast (parts p) |}.

Definition basename (p : path) : string := List.last (parts p) "".

(** Index of the last occurrence of a character. *)
Fixpoint rfind (c : ascii) (s : string) : option nat :=
  match s with
  | EmptyString => None
  | String a s' =>
      match rfind c s' with
      | Some i => Some (S i)
      | None => if Ascii.eqb a c then Some 0 else None
      end
  end.

Definition extension (p : path) : string :=
  let n := basename p in
  match rfind "."%char n with
  | Some i =>
      if Nat.ltb 0 i && Nat.ltb i (String.length n - 1)
      then String.substring i (String.length n - i) n
      else ""
  | None => ""
  end.

Definition render (p : path) : string :=
  match parts p with
  | [] => if absolute p then "/" else "."
  | c :: cs =>
      (if absolute p then "/" else "")
        +:+ foldl (λ acc x, acc +:+ "/" +:+ x) c cs
  end.

#[global] Instance path_lib : PathLib path :=
  {| Path_of := of_string; joinpath := join; parent := dirname;
     name := basename; suffix := extension; str_path := render |}.

(** The world: the files and directories that exist. *)
Definition world : Type := list path.

Definition is_file_of (dir : path) (p : path) : bool :=
  bool_decide (dirname p = dir) && negb (String.eqb (extension p) "").

(** Copies are named like the image pyramid: [frame_00001.ext], ... *)
Definition copies (dst : path) (images : list path) : list (path * path) :=
  map (λ cv : Z * path,
         (cv.2, join dst (of_string ("frame_" +:+ Py.format_05 cv.1 +:+ extension cv.2))))
      (Py.enumerate 1 images).

Definition images_dir (s : Self path) : path := join (output_dir s) (of_string "images").

Definition model_dir (s : Self path) : path := join (output_dir s) (colmap_model_path s).

(** Collaborators over that world.  [writes_cameras] says whether a COLMAP
    run leaves its camera file behind. *)
Definition externals (writes_cameras : bool) : Externals path world :=
  {| default_colmap_path := of_string "colmap/sparse/0";
     image_dir := images_dir;
     absolute_colmap_model_path := model_dir;
     path_exists := λ p w, bool_decide (p ∈ w);
     mkdir := λ p w, (inr tt, w ++ [p]);
     compute_resolution_from_equirect := λ _ _ w, (inr (1024, 1024)%Z, w);
     generate_planar_projections_from_equirectangular :=
       λ src _ _ _ w,
         let dir := join src (of_string "planar_projections") in
         (inr dir,
          w ++ [dir; join dir (of_string "pano_0.jpg"); join dir (of_string "pano_1.jpg")]);
     copy_images := λ src dst _ _ _ _ w,
       let made := copies dst (filter (λ p, is_file_of src p = true) w) in
       (inr made, w ++ [dst] ++ made.*2);
     save_mask := λ dir _ _ radius frame_masks w,
       if String.eqb frame_masks "" && PrimFloat.eqb radius 1.0
       then (inr None, w)
       else let masks := join (dirname dir) (of_string "masks") in
            (inr (Some (join masks (of_string "mask.png"))),
             w ++ [masks; join masks (of_string "mask.png")]);
     list_images := λ src w, (inr (filter (λ p, is_file_of src p = true) w), w);
     _run_colmap := λ s w,
       (inr tt,
        if writes_cameras then w ++ [join (model_dir s) (of_string "cameras.bin")] else w);
     _export_depth := λ _ w, (inr (∅, []), w);
     _save_transforms := λ s n _ _ _ w,
       (inr ["Colmap matched " +:+ Py.str_int n +:+ " images"],
        w ++ [join (output_dir s) (of_string "transforms.json")]) |}.

(** The same collaborators on a machine without COLMAP: the run of COLMAP
    fails. *)
Definition without_colmap : Externals path world :=
  {| default_colmap_path := default_colmap_path (externals true);
     image_dir := image_dir (externals true);
     absolute_colmap_model_path := absolute_colmap_model_path (externals true);
     path_exists := path_exists (externals true);
     mkdir := mkdir (externals true);
     compute_resolution_from_equirect := compute_resolution_from_equirect (externals true);
     generate_planar_projections_from_equirectangular :=
       generate_planar_projections_from_equirectangular (externals true);
     copy_images := copy_images (externals true);
     save_mask := save_mask (externals true);
     list_images := list_images (externals true);
     _run_colmap := λ _ w, (inl (Failed "colmap: command not found"), w);
     _export_depth := _export_depth (externals true);
     _save_transforms := _save_transforms (externals true) |}.

(** A configuration reading [/in] and writing [/out]; the other options
    are those of the command line unless given. *)
Definition config (camera : string) (skip_images skip_reconstruction : bool)
    (model : string) (radius : float) (frame_masks depth : string) : Self path :=
  {| data := of_string "/in"; output_dir := of_string "/out"; verbose := false;
     camera_type := camera; images_per_equirect := 8;
     crop_factor := (0.0, 0.25, 0.0, 0.0)%float; num_downscales := 3;
     skip_colmap := skip_reconstruction; skip_image_processing := skip_images;
     colmap_model_path := of_string model;
     percent_radius_crop := radius; frame_mask_path := frame_masks;
     depth_path := depth |}.

Definition defaults : Self path :=
  config "perspective" false false "colmap/sparse/0" 1.0 "" "".

(** The configurations the runs below start from, each one option away
    from the defaults. *)
Definition colmap_skipped : Self path :=
  config "perspective" false true "colmap/sparse/0" 1.0 "" "".

Definition circle_mask : Self path :=
  config "perspective" false false "colmap/sparse/0" 0.5 "" "".

Definition frame_masks : Self path :=
  config "perspective" false false "colmap/sparse/0" 1.0 "/masks_in" "".

Definition external_depth : Self path :=
  config "perspective" false false "colmap/sparse/0" 1.0 "" "/depth".

Definition external_depth_unprocessed : Self path :=
  config "perspective" true false "colmap/sparse/0" 1.0 "" "/depth".

Definition unprocessed : Self path :=
  config "perspective" true false "colmap/sparse/0" 1.0 "" "".

Definition model_elsewhere : Self path :=
  config "perspective" false true "elsewhere/sparse" 1.0 "" "".

Definition panoramas : Self path :=
  config "equirectangular" false false "colmap/sparse/0" 1.0 "" "".

(** Three photographs, and two depth images to go with them. *)
Definition photographs : world :=
  map of_string ["/in"; "/in/a.jpg"; "/in/b.jpg"; "/in/c.png";
                 "/depth"; "/depth/a.png"; "/depth/b.tiff"].

End Posix.

(** ** What a run lets one observe *)

Section Observations.

Context {Path : Type} `{PathLib Path} {World : Type}.

Definition is_save_transforms (ev : Event Path) : bool :=
  match ev with EvSaveTransforms _ _ _ _ _ => true | _ => false end.

Definition is_run_colmap (ev : Event Path) : bool :=
  match ev with EvRunColmap _ => true | _ => false end.

Definition is_export_depth (ev : Event Path) : bool :=
  match ev with EvExportDepth _ => true | _ => false end.

Definition is_log (ev : Event Path) : bool :=
  match ev with EvLog _ => true | _ => false end.

(** The name-translation tables and the mask references the manifest
    builder was handed, one per invocation. *)
Definition renames_received (tr : list (Event Path)) : list (option (gmap string string)) :=
  omap (λ ev, match ev with EvSaveTransforms _ _ _ _ r => Some r | _ => None end) tr.

Definition masks_received (tr : list (Event Path)) : list (option (MaskRef Path)) :=
  omap (λ ev, match ev with EvSaveTransforms _ _ _ m _ => Some m | _ => None end) tr.

(** [b] is [a] up to the two attributes [main] assigns. *)
Definition same_options (a b : Self Path) : Prop :=
  with_camera_type (camera_type a) (with_data (data a) b) = a.

(** The crop factor each collaborator is handed, against the configured one. *)
Definition crop_as_coded (configured : Crop) (ev : Event Path) : Prop :=
  match ev with
  | EvSaveMask _ _ crop _ _ => crop = zero_crop
  | EvCopyImages _ _ crop _ _ _ => crop = configured
  | EvGenerateProjections _ _ _ crop => crop = configured
  | _ => True
  end.

(** A stage downstream of the equirectangular block: anything but the
    block's own two collaborators and console output. *)
Definition is_downstream (ev : Event Path) : bool :=
  match ev with
  | EvLog _ | EvComputeResolution _ _ | EvGenerateProjections _ _ _ _ => false
  | _ => true
  end.

(** What a downstream stage sees of the object [s]: the stages that are
    methods see [s] itself, the image utilities see its working input. *)
Definition stage_sees (s : Self Path) (ev : Event Path) : Prop :=
  match ev with
  | EvCopyImages src _ _ _ _ None => src = data s
  | EvListImages src => src = data s
  | EvRunColmap s' | EvExportDepth s' | EvSaveTransforms s' _ _ _ _ => s' = s
  | _ => True
  end.

(** The invocations of lines 58-65, made while the object is still [s]. *)
Definition equirect_event (s : Self Path) (ev : Event Path) : Prop :=
  match ev with
  | EvLog _ => True
  | EvComputeResolution src n =>
      camera_type s = "equirectangular" ∧ src = data s ∧ n = images_per_equirect s
  | EvGenerateProjections src _ n crop =>
      camera_type s = "equirectangular" ∧ src = data s ∧ n = images_per_equirect s
      ∧ crop = crop_factor s
  | _ => False
  end.

(** The invocations of lines 69-146 with the arguments they are made with
    when the object is [s], each under the condition that guards it. *)
Definition invoked_as (X : Externals Path World) (s : Self Path) (ev : Event Path) : Prop :=
  match ev with
  | EvLog _ => True
  | EvCopyImages src dir crop v n None =>
      skip_image_processing s = false
      ∧ src = data s ∧ dir = image_dir X s ∧ crop = crop_factor s
      ∧ v = verbose s ∧ n = num_downscales s
  | EvCopyImages src dir crop v n (Some nearest) =>
      skip_image_processing s = false ∧ depth_path s ≠ ""
      ∧ src = Path_of (depth_path s) ∧ dir = parent (image_dir X s) /' "depth"
      ∧ crop = crop_factor s ∧ v = verbose s ∧ n = num_downscales s ∧ nearest = true
  | EvSaveMask dir n crop radius masks =>
      skip_image_processing s = false
      ∧ dir = image_dir X s ∧ n = num_downscales s ∧ crop = zero_crop
      ∧ radius = percent_radius_crop s ∧ masks = frame_mask_path s
  | EvMkdir p =>
      skip_image_processing s = false ∧ depth_path s ≠ ""
      ∧ p = parent (image_dir X s) /' "depth"
  | EvListImages src => skip_image_processing s = true ∧ src = data s
  | EvRunColmap s' => skip_colmap s = false ∧ s' = s
  | EvExportDepth s' => depth_path s = "" ∧ s' = s
  | EvSaveTransforms s' _ _ _ _ => s' = s
  | EvComputeResolution _ _ | EvGenerateProjections _ _ _ _ => False
  end.

(** From [st] to [st'] the object is unchanged and the trace grew by
    invocations made on it. *)
Definition advances (X : Externals Path World) (st st' : State Path World) : Prop :=
  self st' = self st
  ∧ ∃ evs, trace st' = trace st ++ evs ∧ Forall (invoked_as X (self st)) evs.

(** Line 125: the entry the loop adds for the pair [cv] of a count and a
    copied depth image. *)
Definition depth_insert (out : Path) (table : gmap Z Path) (cv : Z * Path) : gmap Z Path :=
  <[cv.1 := out /' ("frame_" +:+ Py.format_05 cv.1 +:+ suffix cv.2)]> table.

(** The depth table lines 123-125 build from the copied depth images. *)
Definition depth_table_of (out : Path) (copied : list (Path * Path)) : gmap Z Path :=
  foldl (depth_insert out) ∅ (Py.enumerate 1 (Py.keys copied)).

(** How the object [s1], the world [w1] and the trace [evs] after lines
    58-65 come from the object [s] and the world [w] before them. *)
Definition retagged (X : Externals Path World) (s : Self Path) (w : World) (s1 : Self Path) (w1 : World)
    (evs : list (Event Path)) : Prop :=
  if String.eqb (camera_type s) "equirectangular" then
    ∃ size d w',
      compute_resolution_from_equirect X (data s) (images_per_equirect s) w = (inr size, w')
      ∧ generate_planar_projections_from_equirectangular X
          (data s) size (images_per_equirect s) (crop_factor s) w' = (inr d, w1)
      ∧ s1 = with_camera_type "perspective" (with_data d s)
      ∧ evs = [EvComputeResolution (data s) (images_per_equirect s);
               EvLog ("Generating " +:+ Py.str_int (images_per_equirect s) +:+ " "
                        +:+ repr_size size
                        +:+ " sized images per equirectangular image");
               EvGenerateProjections (data s) size (images_per_equirect s) (crop_factor s)]
  else s1 = s ∧ w1 = w ∧ evs = [].

(** What lines 69-109 leave behind for the later stages, in terms of the
    configuration [s] the run started with: the options of the object are
    those of [s], its camera type is no longer equirectangular, the frame
    count is bound, and the two depth locals are bound exactly when image
    processing ran with an external depth directory. *)
Definition preprocessed (X : Externals Path World) (s : Self Path)
    (st : State Path World) : Prop :=
  same_options s (self st)
  ∧ camera_type (self st) ≠ "equirectangular"
  ∧ is_Some (num_frames st)
  ∧ (if skip_image_processing s || String.eqb (depth_path s) ""
     then copied_depth_images st = None ∧ output_depth_path st = None
     else is_Some (copied_depth_images st)
          ∧ output_depth_path st = Some (parent (image_dir X (self st)) /' "depth")).

(** Events that cannot occur before COLMAP, before the depth stage, before
    the manifest. *)
Definition not_yet_colmap (ev : Event Path) : Prop :=
  is_run_colmap ev || is_export_depth ev || is_save_transforms ev = false.

Definition not_yet_depth (ev : Event Path) : Prop :=
  is_export_depth ev || is_save_transforms ev = false.

Definition not_yet_saved (ev : Event Path) : Prop :=
  is_save_transforms ev = false.

(** The value lines 129-134 leave in [mask_path] when run in the frame [st]. *)
Definition resolved_mask (X : Externals Path World) (st : State Path World)
    : option (MaskRef Path) :=
  let masks := parent (image_dir X (self st)) /' "masks" in
  if path_exists X masks (world st)
  then if String.eqb (frame_mask_path (self st)) ""
       then Some (MaskStr "masks/mask.png")
       else Some (MaskDir masks)
  else None.

(** An exception that does not come out of the manifest writer. *)
Definition not_from_save (e : Exn) : Prop :=
  match e with
  | Propagated save_transforms_ _ => False
  | _ => True
  end.

(** The frame after the console printed [lines], one message each. *)
Definition logged (lines : list string) (st : State Path World) : State Path World :=
  foldl (λ acc line, record_event (EvLog line) acc) st lines.

(** Weakest precondition of a computation for a postcondition on normal
    return and one on exceptional exit. *)
Definition wp {A : Type} (m : M Path World A)
    (Q : A → State Path World → Prop) (E : Exn → State Path World → Prop)
    (st : State Path World) : Prop :=
  match m st with
  | (inr a, st') => Q a st'
  | (inl e, st') => E e st'
  end.

(** [I] holds wherever the computation stops, normally or not. *)
Definition preserves {A : Type} (I : State Path World → Prop) (m : M Path World A) : Prop :=
  ∀ st, I st → wp m (λ _, I) (λ _, I) st.

(** A computation that never invokes the manifest writer, however it ends. *)
Definition quiet {A : Type} (m : M Path World A) : Prop :=
  ∀ st, Forall not_yet_saved (trace st) →
    wp m (λ _ st', Forall not_yet_saved (trace st'))
         (λ e st', Forall not_yet_saved (trace st') ∧ not_from_save e) st.

(** An exception other than the reading of an unbound local. *)
Definition bound_locals (e : Exn) : Prop :=
  match e with UnboundLocalError _ => False | _ => True end.

(** A computation that never reads a local unbound, from whatever frame. *)
Definition binds_before_reading {A : Type} (m : M Path World A) : Prop :=
  ∀ st, wp m (λ _ _, True) (λ e _, bound_locals e) st.

(** The place of an invocation in the source of [main], counting the
    collaborator calls from the top; console messages have none.  The two
    ways of counting the images (lines 72 and 106) are the two branches of
    one conditional and share a place. *)
Definition stage_rank (ev : Event Path) : option nat :=
  match ev with
  | EvLog _ => None
  | EvComputeResolution _ _ => Some 0
  | EvGenerateProjections _ _ _ _ => Some 1
  | EvCopyImages _ _ _ _ _ None => Some 2
  | EvListImages _ => Some 2
  | EvSaveMask _ _ _ _ _ => Some 3
  | EvMkdir _ => Some 4
  | EvCopyImages _ _ _ _ _ (Some _) => Some 5
  | EvRunColmap _ => Some 6
  | EvExportDepth _ => Some 7
  | EvSaveTransforms _ _ _ _ _ => Some 8
  end.

(** The places of a trace are strictly increasing and all below [k]. *)
Definition ordered_below (k : nat) (tr : list (Event Path)) : Prop :=
  StronglySorted lt (omap stage_rank tr) ∧ Forall (λ r, (r < k)%nat) (omap stage_rank tr).

(** From a trace ordered below [k1] the computation leaves one ordered
    below [k2] when it returns, and an ordered one however it ends. *)
Definition ranked {A : Type} (k1 k2 : nat) (m : M Path World A) : Prop :=
  ∀ st, ordered_below k1 (trace st) →
    wp m (λ _ st', ordered_below k2 (trace st'))
         (λ _ st', ordered_below 9 (trace st')) st.

(** The computation keeps [I] wherever it stops, and an exception it ends
    in satisfies [E]. *)
Definition upholds {A : Type} (I : State Path World → Prop)
    (E : Exn → State Path World → Prop) (m : M Path World A) : Prop :=
  ∀ st, I st → wp m (λ _, I) (λ e st', I st' ∧ E e st') st.

(** The condition on the configuration [s] that guards each invocation in
    the source of [main]. *)
Definition permitted (X : Externals Path World) (s : Self Path) (ev : Event Path) : Prop :=
  match ev with
  | EvLog _ | EvSaveTransforms _ _ _ _ _ => True
  | EvComputeResolution _ _ | EvGenerateProjections _ _ _ _ =>
      camera_type s = "equirectangular"
  | EvCopyImages _ _ _ _ _ None | EvSaveMask _ _ _ _ _ => skip_image_processing s = false
  | EvMkdir _ | EvCopyImages _ _ _ _ _ (Some _) =>
      skip_image_processing s = false ∧ depth_path s ≠ ""
  | EvListImages _ => skip_image_processing s = true
  | EvRunColmap _ => skip_colmap s = false ∧ colmap_model_path s = default_colmap_path X
  | EvExportDepth _ => depth_path s = ""
  end.

(** Lines 97-104: the arguments of the copy of the depth images, for the
    configuration [s] and the object [s'] the copy is made on. *)
Definition depth_copy_as_coded (X : Externals Path World) (s s' : Self Path)
    (ev : Event Path) : Prop :=
  match ev with
  | EvCopyImages src dir crop v n (Some nearest) =>
      nearest = true ∧ src = Path_of (depth_path s)
      ∧ dir = parent (image_dir X s') /' "depth"
      ∧ crop = crop_factor s ∧ v = verbose s ∧ n = num_downscales s
  | _ => True
  end.

(** Every copy of depth images in the trace comes directly after the
    creation of its destination directory; [prev] is the invocation before
    the trace. *)
Fixpoint follows_mkdir (prev : option (Event Path)) (tr : list (Event Path)) : Prop :=
  match tr with
  | [] => True
  | ev :: rest =>
      match ev with
      | EvCopyImages _ dir _ _ _ (Some _) => prev = Some (EvMkdir dir)
      | _ => True
      end
      ∧ follows_mkdir (Some ev) rest
  end.

(** The collaborator an entry of the trace is an invocation of. *)
Definition invoker (ev : Event Path) : option Collaborator :=
  match ev with
  | EvLog _ => None
  | EvComputeResolution _ _ => Some compute_resolution_from_equirect_
  | EvGenerateProjections _ _ _ _ =>
      Some generate_planar_projections_from_equirectangular_
  | EvCopyImages _ _ _ _ _ _ => Some copy_images_
  | EvSaveMask _ _ _ _ _ => Some save_mask_
  | EvMkdir _ => Some mkdir_
  | EvListImages _ => Some list_images_
  | EvRunColmap _ => Some run_colmap_
  | EvExportDepth _ => Some export_depth_
  | EvSaveTransforms _ _ _ _ _ => Some save_transforms_
  end.

(** A failure propagating out of a collaborator leaves the trace ending in
    the invocation of that collaborator. *)
Definition fails_in_its_invocation (e : Exn) (st : State Path World) : Prop :=
  match e with
  | Propagated who _ => ∃ before ev, trace st = before ++ [ev] ∧ invoker ev = Some who
  | _ => True
  end.

(** What [main] has done to the object [s] when it is [s']: nothing, or
    lines 62-65. *)
Definition reassigned (s s' : Self Path) : Prop :=
  same_options s s'
  ∧ (s' = s ∨ (camera_type s = "equirectangular" ∧ camera_type s' = "perspective")).

(** The [RuntimeError]s of lines 51, 53, 108 and 127, each with the
    condition on the configuration [s] and on the frame [st] of the exit
    under which [main] raises it. *)
Definition runtime_error_of (X : Externals Path World) (s : Self Path)
    (st : State Path World) (msg : string) : Prop :=
  (msg = "The --colmap-model-path can only be used when --skip-colmap is not set."
   ∧ colmap_model_path s ≠ default_colmap_path X ∧ skip_colmap s = false)
  ∨ (msg = "The colmap-model-path " +:+ str_path (output_dir s // colmap_model_path s)
             +:+ " does not exist."
     ∧ colmap_model_path s ≠ default_colmap_path X ∧ skip_colmap s = true
     ∧ path_exists X (output_dir s // colmap_model_path s) (world st) = false)
  ∨ (msg = "No usable images in the data folder."
     ∧ skip_image_processing s = true ∧ num_frames st = Some 0%Z)
  ∨ (msg = "Could not find existing COLMAP results ("
             +:+ str_path (colmap_model_path s /' "cameras.bin") +:+ ")."
     ∧ (skip_colmap s = false ∨ colmap_model_path s ≠ default_colmap_path X)
     ∧ path_exists X (absolute_colmap_model_path X (self st) /' "cameras.bin") (world st)
       = false).

(** An exception that, if it is a [RuntimeError], is one of those. *)
Definition raised_as_coded (X : Externals Path World) (s : Self Path)
    (e : Exn) (st : State Path World) : Prop :=
  match e with
  | RuntimeError msg => runtime_error_of X s st msg
  | _ => True
  end.

(** The camera file is required only after a COLMAP run or with an
    explicit model path. *)
Definition requirement_is_founded (X : Externals Path World) (s : Self Path)
    (st : State Path World) : Prop :=
  same_options s (self st)
  ∧ (require_cameras_exist st = true →
     skip_colmap s = false ∨ colmap_model_path s ≠ default_colmap_path X).



(** Line 79: the pairs of file names of the copied images. *)
Definition names_of (copied : list (Path * Path)) : list (string * string) :=
  map (λ ab, (name ab.1, name ab.2)) copied.

End Observations.

(** ** Reasoning rules *)

Section Rules.

Context {Path : Type} `{PathLib Path} {World : Type}.

Local Notation "'St'" := (State Path World).
Local Notation "'Run'" := (M Path World).

Lemma wp_ret {A} (a : A) (Q : A → St → Prop) E st :
  Q a st → wp (ret a) Q E st.
Proof. done. Qed.

Lemma wp_raise {A} e (Q : A → St → Prop) (E : Exn → St → Prop) st :
  E e st → wp (raise e) Q E st.
Proof. done. Qed.

Lemma wp_gets {A} (f : St → A) (Q : A → St → Prop) E st :
  Q (f st) st → wp (gets f) Q E st.
Proof. done. Qed.

Lemma wp_modify (f : St → St) (Q : unit → St → Prop) E st :
  Q tt (f st) → wp (modify f) Q E st.
Proof. done. Qed.

Lemma wp_bind {A B} (m : Run A) (k : A → Run B) (Q : B → St → Prop) E st :
  wp m (λ a, wp (k a) Q E) E st → wp (bind m k) Q E st.
Proof. unfold wp, bind. by destruct (m st) as [[e|a] st']. Qed.

Lemma wp_read_local {A} var (f : St → option A) (Q : A → St → Prop) (E : Exn → St → Prop) st :
  match f st with
  | Some a => Q a st
  | None => E (UnboundLocalError var) st
  end →
  wp (read_local var f) Q E st.
Proof. unfold wp, read_local. by destruct (f st). Qed.

Lemma wp_call {A} who ev (f : Ext World A) (Q : A → St → Prop) (E : Exn → St → Prop) st :
  (∀ r w', f (world st) = (r, w') →
     match r with
     | inr a => Q a (set_world w' (record_event ev st))
     | inl e => E (Propagated who e) (set_world w' (record_event ev st))
     end) →
  wp (call who ev f) Q E st.
Proof.
  intros Hf. unfold wp, call. cbn [world record_event].
  specialize (Hf (f (world st)).1 (f (world st)).2).
  destruct (f (world st)) as [[e|a] w']; by apply Hf.
Qed.

Lemma wp_mono {A} (m : Run A) (Q Q' : A → St → Prop) (E E' : Exn → St → Prop) st :
  wp m Q E st →
  (∀ a st', Q a st' → Q' a st') →
  (∀ e st', E e st' → E' e st') →
  wp m Q' E' st.
Proof. unfold wp. destruct (m st) as [[e|a] st']; auto. Qed.

(** What [wp] says of the outcome. *)
Lemma wp_outcome {A} (m : Run A) (Q : A → St → Prop) E st r st' :
  wp m Q E st → m st = (r, st') →
  match r with inr a => Q a st' | inl e => E e st' end.
Proof. unfold wp. intros Hwp Hm. by rewrite Hm in Hwp. Qed.

(** A loop keeps what each iteration keeps. *)
Lemma wp_for_each {A} (I : St → Prop) (E : Exn → St → Prop) (xs : list A) (body : A → Run unit) st :
  I st →
  (∀ x st0, x ∈ xs → I st0 → wp (body x) (λ _, I) E st0) →
  wp (for_each xs body) (λ _, I) E st.
Proof.
  revert st. induction xs as [|x xs IH]; intros st HI Hbody; [done|].
  cbn [for_each]. apply wp_bind.
  eapply wp_mono; [apply Hbody; [by left|done]| |done].
  intros [] st' HI'. apply IH; [done|].
  intros y st0 Hy. apply Hbody. by right.
Qed.

(** Sequencing, when the first part is known to return. *)
Lemma bind_returns {A B} (m : Run A) (k : A → Run B) st a st' :
  m st = (inr a, st') → bind m k st = k a st'.
Proof. unfold bind. by intros ->. Qed.

Lemma bind_raises {A B} (m : Run A) (k : A → Run B) st e st' :
  m st = (inl e, st') → bind m k st = (inl e, st').
Proof. unfold bind. by intros ->. Qed.

(** A sequence returns only if its first part does. *)
Lemma bind_inv {A B} (m : Run A) (k : A → Run B) st b st' :
  bind m k st = (inr b, st') →
  ∃ a st1, m st = (inr a, st1) ∧ k a st1 = (inr b, st').
Proof. unfold bind. destruct (m st) as [[e|a] st1]; [done|eauto]. Qed.

Lemma preserves_bind {A B} (I : St → Prop) (m : Run A) (k : A → Run B) :
  preserves I m → (∀ a, preserves I (k a)) → preserves I (bind m k).
Proof.
  intros Hm Hk st HI. apply wp_bind.
  eapply wp_mono; [by apply Hm| |done]. intros a st' HI'. by apply Hk.
Qed.

End Rules.

(** Projections of the frame and of the object, on symbolic states. *)
Ltac st_simpl :=
  cbn [self require_cameras_exist image_rename_map summary_log num_frames
       output_depth_path copied_depth_images image_id_to_depth_path world trace
       set_self set_require_cameras_exist set_image_rename_map set_summary_log
       set_num_frames set_output_depth_path set_copied_depth_images
       set_image_id_to_depth_path set_world record_event initial
       data output_dir verbose camera_type images_per_equirect crop_factor
       num_downscales skip_colmap skip_image_processing colmap_model_path
       percent_radius_crop frame_mask_path depth_path with_data with_camera_type
       fst snd negb] in *.

(** Symbolic execution of one statement. *)
Ltac wp_step :=
  lazymatch goal with
  | |- wp (bind _ _) _ _ _ => apply wp_bind
  | |- wp (ret _) _ _ _ => apply wp_ret
  | |- wp (raise _) _ _ _ => apply wp_raise
  | |- wp (gets _) _ _ _ => apply wp_gets
  | |- wp (modify _) _ _ _ => apply wp_modify
  | |- wp (console_log _) _ _ _ => apply wp_modify
  | |- wp (summary_extend _) _ _ _ => apply wp_modify
  | |- wp (read_local _ _) _ _ _ => apply wp_read_local
  | |- wp (call _ _ _) _ _ _ =>
      let r := fresh "r" in let w := fresh "w" in let Hcall := fresh "Hcall" in
      apply wp_call; intros [r|r] w Hcall
  | |- wp (for_each _ _) _ _ _ =>
      apply wp_for_each; [ | intros ? ? _ ? ]
  | |- wp (if negb (String.eqb ?a ?b) then _ else _) _ _ _ =>
      destruct (String.eqb_spec a b)
  | |- wp (if String.eqb ?a ?b then _ else _) _ _ _ =>
      destruct (String.eqb_spec a b)
  | |- wp (if negb ?b then _ else _) _ _ _ => destruct b eqn:?
  | |- wp (if ?b then _ else _) _ _ _ => destruct b eqn:?
  | |- wp (match ?x with _ => _ end) _ _ _ => destruct x eqn:?
  | |- match ?x with Some _ => _ | None => _ end => destruct x eqn:?
  end.

Ltac wp_go := repeat (wp_step; st_simpl).

(** The stages of [main], unfolded to their statements. *)
Ltac unfold_stages :=
  unfold check_colmap_model_path, equirect_block, image_block, copy_depth_block,
    colmap_block, depth_block, depth_entry, cameras_check, manifest, resolve_mask,
    save_block.

(** ** The stages one by one *)

Section Stages.

Context {Path : Type} `{PathLib Path} {World : Type}.
Variable X : Externals Path World.

Local Notation "'St'" := (State Path World).


Lemma advances_refl (st : St) : advances X st st.
Proof. split; [done|]. exists []. by rewrite app_nil_r. Qed.

Ltac advances_with Hadv :=
  let Hself := fresh "Hself" in let evs := fresh "evs" in
  let Htr := fresh "Htr" in let Hevs := fresh "Hevs" in
  destruct Hadv as (Hself & evs & Htr & Hevs);
  split; st_simpl; [exact Hself|];
  rewrite Htr; rewrite <- ?app_assoc;
  eexists; split; [first [reflexivity | symmetry; apply app_nil_r]|];
  revert Hevs; rewrite <- Hself; intros Hevs;
  rewrite ?Forall_app; repeat split; try exact Hevs;
  repeat constructor; cbn; repeat split; auto.

Ltac advances_done :=
  match goal with
  | Hadv : advances _ ?st0 _ |- advances _ ?st0 _ => solve [advances_with Hadv]
  end.

Lemma image_block_advances st0 : preserves (advances X st0) (image_block X).
Proof. intros st Hadv. unfold_stages. wp_go; advances_done. Qed.

Lemma colmap_block_advances st0 : preserves (advances X st0) (colmap_block X).
Proof. intros st Hadv. unfold_stages. wp_go; advances_done. Qed.

Lemma depth_block_advances st0 : preserves (advances X st0) (depth_block X).
Proof. intros st Hadv. unfold_stages. wp_go; advances_done. Qed.

Lemma cameras_check_advances st0 : preserves (advances X st0) (cameras_check X).
Proof. intros st Hadv. unfold_stages. wp_go; advances_done. Qed.

Lemma manifest_advances st0 : preserves (advances X st0) (manifest X).
Proof. intros st Hadv. unfold_stages. wp_go; advances_done. Qed.


Lemma bind_assoc {A B C} (m : M Path World A) (k : A → M Path World B)
    (k' : B → M Path World C) st :
  bind (bind m k) k' st = bind m (λ a, bind (k a) k') st.
Proof. unfold bind. by destruct (m st) as [[e|a] st']. Qed.

Lemma main_from_cameras_check st :
  main X st = bind (to_cameras_check X) (λ _, from_cameras_check X) st.
Proof. unfold main, to_manifest. by rewrite bind_assoc. Qed.

Lemma main_from_depth st :
  main X st = bind (to_depth X) (λ _, from_depth X) st.
Proof. rewrite main_from_cameras_check. unfold to_cameras_check. by rewrite bind_assoc. Qed.

Lemma main_from_colmap st :
  main X st = bind (to_colmap X) (λ _, from_colmap X) st.
Proof. rewrite main_from_depth. unfold to_depth. by rewrite bind_assoc. Qed.

Lemma main_from_images st :
  main X st = bind (to_images X) (λ _, from_images X) st.
Proof. rewrite main_from_colmap. unfold to_colmap. by rewrite bind_assoc. Qed.

Lemma from_cameras_check_advances st0 : preserves (advances X st0) (from_cameras_check X).
Proof.
  apply preserves_bind; [apply cameras_check_advances|]. intros _. apply manifest_advances.
Qed.

Lemma from_depth_advances st0 : preserves (advances X st0) (from_depth X).
Proof.
  apply preserves_bind; [apply depth_block_advances|]. intros _.
  apply from_cameras_check_advances.
Qed.

Lemma from_colmap_advances st0 : preserves (advances X st0) (from_colmap X).
Proof.
  apply preserves_bind; [apply colmap_block_advances|]. intros _.
  apply from_depth_advances.
Qed.

Lemma from_images_advances st0 : preserves (advances X st0) (from_images X).
Proof.
  apply preserves_bind; [apply image_block_advances|]. intros _.
  apply from_colmap_advances.
Qed.

(** What holds of any outcome of a computation that keeps an invariant. *)
Lemma preserves_outcome {A} (I : St → Prop) (m : M Path World A) st r st' :
  preserves I m → I st → m st = (r, st') → I st'.
Proof.
  intros Hm HI Hrun. pose proof (wp_outcome _ _ _ _ _ _ (Hm st HI) Hrun) as Hout.
  by destruct r.
Qed.

Lemma to_images_spec s w :
  wp (to_images X)
    (λ _ st1, ∃ s1 w1 evs,
        st1 = {| self := s1;
                 require_cameras_exist :=
                   bool_decide (colmap_model_path s ≠ default_colmap_path X);
                 image_rename_map := None; summary_log := []; num_frames := None;
                 output_depth_path := None; copied_depth_images := None;
                 image_id_to_depth_path := None; world := w1; trace := evs |}
        ∧ retagged X s w s1 w1 evs
        ∧ (colmap_model_path s ≠ default_colmap_path X →
           skip_colmap s = true
           ∧ path_exists X (output_dir s // colmap_model_path s) w = true))
    (λ _ st1, self st1 = s ∧ Forall (equirect_event s) (trace st1))
    (initial s w).
Proof.
  unfold to_images, to_equirect. unfold_stages. unfold retagged.
  wp_go.
  all: try (split; [done|]; repeat constructor; done).
  all: try case_bool_decide; try done.
  all: eexists _, _, _; (split; [reflexivity|]); split; st_simpl.
  all: try done; eauto 10.
Qed.

Lemma to_images_returns s w st1 :
  to_images X (initial s w) = (inr tt, st1) →
  ∃ s1 w1 evs,
    st1 = {| self := s1;
             require_cameras_exist :=
               bool_decide (colmap_model_path s ≠ default_colmap_path X);
             image_rename_map := None; summary_log := []; num_frames := None;
             output_depth_path := None; copied_depth_images := None;
             image_id_to_depth_path := None; world := w1; trace := evs |}
    ∧ retagged X s w s1 w1 evs
    ∧ (colmap_model_path s ≠ default_colmap_path X →
       skip_colmap s = true
       ∧ path_exists X (output_dir s // colmap_model_path s) w = true).
Proof. intros Hrun. exact (wp_outcome _ _ _ _ _ _ (to_images_spec s w) Hrun). Qed.

Lemma to_images_raises s w e st1 :
  to_images X (initial s w) = (inl e, st1) →
  self st1 = s ∧ Forall (equirect_event s) (trace st1).
Proof. intros Hrun. exact (wp_outcome _ _ _ _ _ _ (to_images_spec s w) Hrun). Qed.



Lemma image_block_locals (st : St) :
  image_rename_map st = None → copied_depth_images st = None →
  output_depth_path st = None →
  wp (image_block X)
    (λ _ st',
       self st' = self st
       ∧ require_cameras_exist st' = require_cameras_exist st
       ∧ image_id_to_depth_path st' = image_id_to_depth_path st
       ∧ is_Some (num_frames st')
       ∧ (if skip_image_processing (self st)
          then image_rename_map st' = None ∧ copied_depth_images st' = None
               ∧ output_depth_path st' = None
          else is_Some (image_rename_map st')
               ∧ (if String.eqb (depth_path (self st)) ""
                  then copied_depth_images st' = None ∧ output_depth_path st' = None
                  else is_Some (copied_depth_images st')
                       ∧ output_depth_path st'
                         = Some (parent (image_dir X (self st)) /' "depth"))))
    (λ _ _, True) st.
Proof.
  intros Hrename Hcopied Hout. unfold_stages. wp_go; try done.
  all: repeat split; try done; try by eexists.
Qed.

Lemma check_colmap_model_path_eq (st : St) :
  check_colmap_model_path X st =
  let st0 := set_require_cameras_exist false st in
  let s := self st in
  if bool_decide (colmap_model_path s ≠ default_colmap_path X) then
    if skip_colmap s then
      if path_exists X (output_dir s // colmap_model_path s) (world st)
      then (inr tt, set_require_cameras_exist true st0)
      else (inl (RuntimeError
                   ("The colmap-model-path "
                      +:+ str_path (output_dir s // colmap_model_path s)
                      +:+ " does not exist.")), st0)
    else (inl (RuntimeError
                 "The --colmap-model-path can only be used when --skip-colmap is not set."),
          st0)
  else (inr tt, st0).
Proof.
  unfold check_colmap_model_path, bind, modify, gets, raise, ret. st_simpl.
  case_bool_decide; [|done].
  destruct (skip_colmap (self st)); [|done]. cbn [negb].
  st_simpl. by destruct (path_exists X _ (world st)).
Qed.

Lemma colmap_block_eq (st : St) :
  colmap_block X st =
  if skip_colmap (self st) then (inr tt, st)
  else
    let st1 := record_event (EvRunColmap (self st)) (set_require_cameras_exist true st) in
    match _run_colmap X (self st) (world st) with
    | (inr _, w') => (inr tt, set_image_rename_map None (set_world w' st1))
    | (inl e, w') => (inl (Propagated run_colmap_ e), set_world w' st1)
    end.
Proof.
  unfold colmap_block, bind, gets, modify, call, ret. st_simpl.
  destruct (skip_colmap (self st)); [done|]. st_simpl.
  by destruct (_run_colmap X (self st) (world st)) as [[e|[]] w'].
Qed.

Lemma cameras_check_eq (st : St) :
  cameras_check X st =
  if require_cameras_exist st
     && negb (path_exists X (absolute_colmap_model_path X (self st) /' "cameras.bin")
                (world st))
  then (inl (RuntimeError
               ("Could not find existing COLMAP results ("
                  +:+ str_path (colmap_model_path (self st) /' "cameras.bin") +:+ ").")),
        st)
  else (inr tt, st).
Proof.
  unfold cameras_check, bind, gets, raise, ret.
  destruct (require_cameras_exist st); [|done]. cbn [andb].
  by destruct (path_exists X _ (world st)).
Qed.

Lemma resolve_mask_eq (st : St) :
  resolve_mask X st = (inr (resolved_mask X st), st).
Proof.
  unfold resolve_mask, resolved_mask, bind, gets, ret. cbn zeta.
  destruct (path_exists X _ (world st)); [|done].
  by destruct (String.eqb (frame_mask_path (self st)) "").
Qed.

(** The depth loop. *)
Lemma depth_loop_eq (out : Path) (keys : list Path) (start : Z) (table : gmap Z Path) (st : St) :
  output_depth_path st = Some out →
  image_id_to_depth_path st = Some table →
  for_each (Py.enumerate start keys) (depth_entry (World := World)) st =
  (inr tt,
   set_image_id_to_depth_path
     (foldl (depth_insert out) table (Py.enumerate start keys))
     st).
Proof.
  revert start table st.
  induction keys as [|k keys IH]; intros start table st Hout Htable.
  - cbn. unfold ret. f_equal. destruct st; cbn in *. by subst.
  - cbn [Py.enumerate for_each foldl].
    unfold bind at 1. unfold depth_entry at 1.
    unfold bind, read_local, modify. rewrite Hout, Htable. st_simpl.
    rewrite (IH _ (<[start := out /' ("frame_" +:+ Py.format_05 start +:+ suffix k)]> table));
      [|done|done].
    done.
Qed.


Lemma depth_block_external (st : St) copied out :
  depth_path (self st) ≠ "" →
  copied_depth_images st = Some copied →
  output_depth_path st = Some out →
  depth_block X st = (inr tt, set_image_id_to_depth_path (depth_table_of out copied) st).
Proof.
  intros Hdepth Hcopied Hout. unfold depth_block.
  unfold bind at 1. unfold gets at 1.
  destruct (String.eqb_spec (depth_path (self st)) ""); [done|].
  unfold bind at 1. unfold modify at 1.
  unfold bind at 1. unfold read_local at 1. st_simpl. rewrite Hcopied.
  by rewrite (depth_loop_eq out _ _ ∅).
Qed.

Lemma depth_block_unbound (st : St) :
  depth_path (self st) ≠ "" →
  copied_depth_images st = None →
  depth_block X st
  = (inl (UnboundLocalError "copied_depth_images"), set_image_id_to_depth_path ∅ st).
Proof.
  intros Hdepth Hcopied. unfold depth_block, bind, gets, modify, read_local.
  destruct (String.eqb_spec (depth_path (self st)) ""); [done|].
  st_simpl. by rewrite Hcopied.
Qed.

Lemma depth_block_export (st : St) :
  depth_path (self st) = "" →
  depth_block X st =
  let st1 := record_event (EvExportDepth (self st)) st in
  match _export_depth X (self st) (world st) with
  | (inr exported, w') =>
      (inr tt,
       set_summary_log (summary_log st ++ exported.2)
         (set_image_id_to_depth_path exported.1 (set_world w' st1)))
  | (inl e, w') => (inl (Propagated export_depth_ e), set_world w' st1)
  end.
Proof.
  intros Hdepth. unfold depth_block, bind, gets, modify, call, summary_extend.
  destruct (String.eqb_spec (depth_path (self st)) ""); [|done].
  st_simpl. by destruct (_export_depth X (self st) (world st)) as [[err|ex] w'].
Qed.

(** *** The table the loop builds *)

Lemma depth_fold_outside out (keys : list Path) start (table : gmap Z Path) k :
  (k < start ∨ start + Z.of_nat (length keys) ≤ k)%Z →
  foldl (depth_insert out) table (Py.enumerate start keys) !! k = table !! k.
Proof.
  revert start table. induction keys as [|v keys IH]; intros start table Hk; [done|].
  cbn [Py.enumerate foldl length] in *. rewrite IH by lia.
  unfold depth_insert. cbn [fst]. apply lookup_insert_ne. lia.
Qed.

Lemma depth_fold_inside out (keys : list Path) start (table : gmap Z Path) i v :
  keys !! i = Some v →
  foldl (depth_insert out) table (Py.enumerate start keys) !! (start + Z.of_nat i)%Z
  = Some (out /' ("frame_" +:+ Py.format_05 (start + Z.of_nat i) +:+ suffix v)).
Proof.
  revert start table i. induction keys as [|v0 keys IH]; intros start table i Hi; [done|].
  cbn [Py.enumerate foldl]. destruct i as [|i].
  - injection Hi as ->. rewrite depth_fold_outside by lia.
    unfold depth_insert. cbn [fst snd]. replace (start + Z.of_nat 0)%Z with start by lia.
    apply lookup_insert_eq.
  - cbn in Hi. replace (start + Z.of_nat (S i))%Z with (start + 1 + Z.of_nat i)%Z by lia.
    by apply IH.
Qed.

Lemma depth_fold_size out (keys : list Path) start (table : gmap Z Path) :
  (∀ k, (start ≤ k)%Z → table !! k = None) →
  size (foldl (depth_insert out) table (Py.enumerate start keys))
  = size table + length keys.
Proof.
  revert start table. induction keys as [|v keys IH]; intros start table Hfree.
  - cbn. lia.
  - cbn [Py.enumerate foldl length]. rewrite (IH (start + 1)%Z).
    + unfold depth_insert. cbn [fst].
      rewrite map_size_insert_None by (apply Hfree; lia). lia.
    + intros k Hk. unfold depth_insert. cbn [fst].
      rewrite lookup_insert_ne by lia. apply Hfree. lia.
Qed.

Lemma depth_table_lookup out (copied : list (Path * Path)) i v :
  Py.keys copied !! i = Some v →
  depth_table_of out copied !! (Z.of_nat i + 1)%Z
  = Some (out /' ("frame_" +:+ Py.format_05 (Z.of_nat i + 1) +:+ suffix v)).
Proof.
  intros Hi. unfold depth_table_of.
  replace (Z.of_nat i + 1)%Z with (1 + Z.of_nat i)%Z by lia.
  by apply depth_fold_inside.
Qed.

Lemma depth_table_keys out (copied : list (Path * Path)) k :
  is_Some (depth_table_of out copied !! k) ↔ (1 ≤ k ≤ Z.of_nat (length copied))%Z.
Proof.
  unfold depth_table_of. split.
  - intros Hk. destruct (decide (1 ≤ k ≤ Z.of_nat (length copied))%Z) as [|Hout]; [done|].
    rewrite depth_fold_outside in Hk.
    + rewrite lookup_empty in Hk. by destruct Hk.
    + unfold Py.keys. rewrite length_fmap. lia.
  - intros Hk.
    destruct (lookup_lt_is_Some_2 (Py.keys copied) (Z.to_nat (k - 1))) as [v Hv].
    { unfold Py.keys. rewrite length_fmap. lia. }
    replace k with (1 + Z.of_nat (Z.to_nat (k - 1)))%Z by lia.
    erewrite depth_fold_inside; [by eexists|done].
Qed.

Lemma depth_table_size out (copied : list (Path * Path)) :
  size (depth_table_of out copied) = length copied.
Proof.
  unfold depth_table_of. rewrite depth_fold_size by (intros; apply lookup_empty).
  rewrite map_size_empty. unfold Py.keys. by rewrite length_fmap.
Qed.

End Stages.

(** ** The frame and the trace along a run *)

Section Reaching.

Context {Path : Type} `{PathLib Path} {World : Type}.
Variable X : Externals Path World.

Local Notation "'St'" := (State Path World).


(** *** The options of the object never change *)

Lemma same_options_refl (s : Self Path) : same_options s s.
Proof. by destruct s. Qed.

Lemma same_options_retag (s : Self Path) d c :
  same_options s (with_camera_type c (with_data d s)).
Proof. by destruct s. Qed.

Lemma same_options_fields (a b : Self Path) :
  same_options a b →
  output_dir b = output_dir a ∧ verbose b = verbose a
  ∧ images_per_equirect b = images_per_equirect a ∧ crop_factor b = crop_factor a
  ∧ num_downscales b = num_downscales a ∧ skip_colmap b = skip_colmap a
  ∧ skip_image_processing b = skip_image_processing a
  ∧ colmap_model_path b = colmap_model_path a
  ∧ percent_radius_crop b = percent_radius_crop a
  ∧ frame_mask_path b = frame_mask_path a ∧ depth_path b = depth_path a.
Proof. intros <-. by destruct b. Qed.

Lemma retagged_facts s w s1 w1 evs :
  retagged X s w s1 w1 evs →
  same_options s s1
  ∧ camera_type s1 ≠ "equirectangular"
  ∧ Forall (equirect_event s) evs
  ∧ Forall not_yet_colmap evs.
Proof.
  unfold retagged. destruct (String.eqb_spec (camera_type s) "equirectangular") as [Heq|Hne].
  - intros (size & d & w' & _ & _ & -> & ->). split; [apply same_options_retag|].
    split; [done|]. split; repeat constructor; done.
  - intros (-> & -> & ->). split; [apply same_options_refl|]. by repeat split.
Qed.

(** *** Which stage can put which invocation on the trace *)

Ltac trace_done :=
  st_simpl; rewrite ?Forall_app; repeat split; try assumption;
  repeat constructor; done.

Lemma image_block_not_yet_colmap :
  preserves (λ st : St, Forall not_yet_colmap (trace st)) (image_block X).
Proof. intros st Htr. unfold_stages. wp_go; trace_done. Qed.

Lemma colmap_block_not_yet_depth :
  preserves (λ st : St, Forall not_yet_depth (trace st)) (colmap_block X).
Proof. intros st Htr. unfold_stages. wp_go; trace_done. Qed.

Lemma depth_block_not_yet_saved :
  preserves (λ st : St, Forall not_yet_saved (trace st)) (depth_block X).
Proof. intros st Htr. unfold_stages. wp_go; trace_done. Qed.

Lemma not_yet_colmap_depth (ev : Event Path) : not_yet_colmap ev → not_yet_depth ev.
Proof. by destruct ev. Qed.

Lemma not_yet_depth_saved (ev : Event Path) : not_yet_depth ev → not_yet_saved ev.
Proof. by destruct ev. Qed.


(** *** The frame on reaching each stage *)

Lemma to_colmap_reached s w st1 :
  to_colmap X (initial s w) = (inr tt, st1) →
  preprocessed X s st1
  ∧ require_cameras_exist st1
    = bool_decide (colmap_model_path s ≠ default_colmap_path X)
  ∧ (colmap_model_path s ≠ default_colmap_path X →
     skip_colmap s = true
     ∧ path_exists X (output_dir s // colmap_model_path s) w = true)
  ∧ image_id_to_depth_path st1 = None
  ∧ (if skip_image_processing s then image_rename_map st1 = None
     else is_Some (image_rename_map st1))
  ∧ Forall not_yet_colmap (trace st1).
Proof.
  intros Hrun. apply bind_inv in Hrun as ([] & st0 & Himg & Hblock).
  apply to_images_returns in Himg as (s1 & w1 & evs & -> & Hretag & Hmodel).
  apply retagged_facts in Hretag as (Hopts & Hcam & _ & Hquiet).
  pose proof (same_options_fields _ _ Hopts) as
    (_ & _ & _ & _ & _ & _ & Hskip & _ & _ & _ & Hdepth).
  match type of Hblock with
  | image_block X ?st0 = _ =>
      pose proof (wp_outcome _ _ _ _ _ _
                    (image_block_locals X st0 eq_refl eq_refl eq_refl) Hblock)
        as (Hself & Hreq & Htable & Hframes & Hlocals);
      pose proof (preserves_outcome _ _ st0 _ _ image_block_not_yet_colmap Hquiet Hblock)
        as Htrace
  end.
  st_simpl. rewrite Hskip, Hdepth in Hlocals.
  unfold preprocessed. rewrite Hself.
  split; [|split; [done|]; split; [done|]; split; [done|]; split; [|done]].
  - repeat split; try done.
    destruct (skip_image_processing s); cbn [orb]; [tauto|].
    destruct (String.eqb (depth_path s) ""); tauto.
  - destruct (skip_image_processing s); tauto.
Qed.

Lemma to_depth_reached s w st2 :
  to_depth X (initial s w) = (inr tt, st2) →
  ∃ st1,
    to_colmap X (initial s w) = (inr tt, st1)
    ∧ colmap_block X st1 = (inr tt, st2)
    ∧ preprocessed X s st2
    ∧ require_cameras_exist st2
      = bool_decide (colmap_model_path s ≠ default_colmap_path X) || negb (skip_colmap s)
    ∧ image_rename_map st2 = (if skip_colmap s then image_rename_map st1 else None)
    ∧ image_id_to_depth_path st2 = None
    ∧ Forall not_yet_depth (trace st2).
Proof.
  intros Hrun. apply bind_inv in Hrun as ([] & st1 & Hpre & Hblock).
  exists st1. split; [done|]. split; [done|].
  apply to_colmap_reached in Hpre as (Hpp & Hreq & _ & Htable & _ & Hquiet).
  destruct Hpp as (Hopts & Hcam & Hframes & Hlocals).
  pose proof (same_options_fields _ _ Hopts) as
    (_ & _ & _ & _ & _ & Hskip & _ & _ & _ & _ & _).
  rewrite colmap_block_eq, Hskip in Hblock. unfold preprocessed.
  destruct (skip_colmap s).
  - injection Hblock as <-. rewrite orb_false_r.
    repeat split; try done. eapply Forall_impl; [done|]. apply not_yet_colmap_depth.
  - destruct (_run_colmap X (self st1) (world st1)) as [[e|[]] w']; [done|].
    injection Hblock as <-. st_simpl. rewrite orb_true_r.
    repeat split; try done. rewrite Forall_app. split; [|by repeat constructor].
    eapply Forall_impl; [done|]. apply not_yet_colmap_depth.
Qed.

Lemma depth_block_locals (st : St) :
  wp (depth_block X)
    (λ _ st',
       self st' = self st
       ∧ require_cameras_exist st' = require_cameras_exist st
       ∧ image_rename_map st' = image_rename_map st
       ∧ num_frames st' = num_frames st
       ∧ copied_depth_images st' = copied_depth_images st
       ∧ output_depth_path st' = output_depth_path st
       ∧ is_Some (image_id_to_depth_path st'))
    (λ _ _, True) st.
Proof.
  unfold_stages. wp_go; try done.
  all: repeat match goal with Hinv : _ ∧ _ |- _ => destruct Hinv end.
  all: repeat split; first [done | congruence | by eexists].
Qed.

Lemma to_cameras_check_reached s w st3 :
  to_cameras_check X (initial s w) = (inr tt, st3) →
  ∃ st2,
    to_depth X (initial s w) = (inr tt, st2)
    ∧ depth_block X st2 = (inr tt, st3)
    ∧ preprocessed X s st3
    ∧ require_cameras_exist st3 = require_cameras_exist st2
    ∧ image_rename_map st3 = image_rename_map st2
    ∧ is_Some (image_id_to_depth_path st3)
    ∧ Forall not_yet_saved (trace st3).
Proof.
  intros Hrun. apply bind_inv in Hrun as ([] & st2 & Hpre & Hblock).
  exists st2. split; [done|]. split; [done|].
  apply to_depth_reached in Hpre as (st1 & _ & _ & Hpp & _ & _ & _ & Hquiet).
  destruct Hpp as (Hopts & Hcam & Hframes & Hlocals).
  pose proof (wp_outcome _ _ _ _ _ _ (depth_block_locals st2) Hblock)
    as (Hself & Hreq & Hrename & Hn & Hcopied & Hout & Htable).
  assert (Forall not_yet_saved (trace st2)) as Hquiet'.
  { eapply Forall_impl; [done|]. apply not_yet_depth_saved. }
  pose proof (preserves_outcome _ _ st2 _ _ depth_block_not_yet_saved Hquiet' Hblock).
  unfold preprocessed. rewrite Hself, Hn, Hcopied, Hout. by repeat split.
Qed.

Lemma to_manifest_reached s w st4 :
  to_manifest X (initial s w) = (inr tt, st4) →
  to_cameras_check X (initial s w) = (inr tt, st4)
  ∧ (require_cameras_exist st4 = true →
     path_exists X (absolute_colmap_model_path X (self st4) /' "cameras.bin") (world st4)
     = true).
Proof.
  intros Hrun. apply bind_inv in Hrun as ([] & st3 & Hpre & Hblock).
  rewrite cameras_check_eq in Hblock.
  destruct (require_cameras_exist st3) eqn:Hreq; cbn [andb] in Hblock.
  - destruct (path_exists X _ (world st3)) eqn:Hpresent; [|done].
    injection Hblock as <-. by rewrite Hreq.
  - injection Hblock as <-. by rewrite Hreq.
Qed.



(** *** The manifest stage *)

Lemma console_loop_eq (lines : list string) (st : St) :
  for_each lines console_log st = (inr tt, logged lines st).
Proof.
  revert st. induction lines as [|line lines IH]; intros st; [done|].
  cbn [for_each]. unfold bind at 1, console_log at 1, modify. apply IH.
Qed.

Lemma logged_trace (lines : list string) (st : St) :
  trace (logged lines st) = trace st ++ map EvLog lines.
Proof.
  revert st. induction lines as [|line lines IH]; intros st.
  - cbn. by rewrite app_nil_r.
  - cbn [logged foldl map]. fold (logged lines (record_event (EvLog line) st)).
    rewrite IH. st_simpl. by rewrite <- app_assoc.
Qed.

Lemma manifest_eq (st : St) n table :
  num_frames st = Some n →
  image_id_to_depth_path st = Some table →
  manifest X st =
  let st1 :=
    record_event
      (EvSaveTransforms (self st) n table (resolved_mask X st) (image_rename_map st)) st in
  match _save_transforms X (self st) n table (resolved_mask X st) (image_rename_map st)
          (world st) with
  | (inr lines, w') =>
      (inr tt,
       logged (summary_log st ++ lines)
         (record_event
            (EvLog "[bold green]:tada: :tada: :tada: All DONE :tada: :tada: :tada:")
            (set_summary_log (summary_log st ++ lines) (set_world w' st1))))
  | (inl f, w') => (inl (Propagated save_transforms_ f), set_world w' st1)
  end.
Proof.
  intros Hn Htable. unfold manifest. unfold bind at 1. rewrite resolve_mask_eq.
  unfold save_block.
  unfold bind at 1, gets at 1. unfold bind at 1, read_local at 1. rewrite Hn.
  unfold bind at 1, read_local at 1. rewrite Htable.
  unfold bind at 1, gets at 1. unfold bind at 1, call at 1. st_simpl.
  destruct (_save_transforms X _ _ _ _ _ (world st)) as [[f|lines] w']; [done|].
  unfold bind at 1, summary_extend, modify at 1.
  unfold bind at 1, console_log at 1, modify at 1.
  unfold bind at 1, gets at 1. st_simpl.
  apply console_loop_eq.
Qed.

End Reaching.

(** ** The claims *)

Section Claims.
Context {Path : Type} `{PathLib Path} {World : Type}.
Variable X : Externals Path World.
Local Notation "'St'" := (State Path World).

(** *** Splitting a run at a stage *)

Lemma run_from_images s w st0 :
  to_images X (initial s w) = (inr tt, st0) → run X s w = from_images X st0.
Proof. intros Hpre. unfold run. rewrite main_from_images. by erewrite bind_returns. Qed.

Lemma run_from_colmap s w st1 :
  to_colmap X (initial s w) = (inr tt, st1) → run X s w = from_colmap X st1.
Proof. intros Hpre. unfold run. rewrite main_from_colmap. by erewrite bind_returns. Qed.

Lemma run_from_depth s w st2 :
  to_depth X (initial s w) = (inr tt, st2) → run X s w = from_depth X st2.
Proof. intros Hpre. unfold run. rewrite main_from_depth. by erewrite bind_returns. Qed.

Lemma run_from_cameras_check s w st3 :
  to_cameras_check X (initial s w) = (inr tt, st3) →
  run X s w = from_cameras_check X st3.
Proof. intros Hpre. unfold run. rewrite main_from_cameras_check. by erewrite bind_returns. Qed.

Lemma run_from_manifest s w st4 :
  to_manifest X (initial s w) = (inr tt, st4) → run X s w = manifest X st4.
Proof. intros Hpre. unfold run, main. by erewrite bind_returns. Qed.

(** The trace of any run: invocations of the equirectangular block on the
    configured object, then invocations of the later stages on one object
    with the same options. *)
Lemma run_trace s w r st' :
  run X s w = (r, st') →
  ∃ s1 head tail,
    trace st' = head ++ tail
    ∧ Forall (equirect_event s) head
    ∧ Forall (invoked_as X s1) tail
    ∧ same_options s s1.
Proof.
  intros Hrun. destruct (to_images X (initial s w)) as [[e|[]] st0] eqn:Hpre.
  - unfold run in Hrun. rewrite main_from_images in Hrun.
    erewrite bind_raises in Hrun by done. injection Hrun as <- <-.
    apply to_images_raises in Hpre as [_ Hhead].
    exists s, (trace st0), []. rewrite app_nil_r.
    repeat split; [done|constructor|apply same_options_refl].
  - rewrite (run_from_images _ _ _ Hpre) in Hrun.
    pose proof (preserves_outcome _ _ st0 _ _ (from_images_advances X st0)
                  (advances_refl X st0) Hrun) as (Hself & tail & Htrace & Htail).
    apply to_images_returns in Hpre as (s1 & w1 & evs & -> & Hretag & _).
    apply retagged_facts in Hretag as (Hopts & _ & Hhead & _).
    st_simpl. by exists s1, evs, tail.
Qed.


Lemma run_raises_in_check s w e st :
  check_colmap_model_path X (initial s w) = (inl e, st) → run X s w = (inl e, st).
Proof.
  intros Hc. unfold run, main, to_manifest, to_cameras_check, to_depth, to_colmap,
    to_images, to_equirect.
  by repeat erewrite bind_raises.
Qed.

(** C6: a COLMAP model path other than the default is checked before
    anything else happens.  If COLMAP is not skipped the run ends in the
    [RuntimeError] of line 51; if it is skipped and the path does not exist
    under the output directory, in the [RuntimeError] of line 53, whose
    message names that path.  In both cases the frame is the one [main]
    was entered with: no collaborator was invoked and the world is
    untouched. *)
Theorem explicit_model_path_is_checked_first s w :
  colmap_model_path s ≠ default_colmap_path X →
  (skip_colmap s = false →
   run X s w
   = (inl (RuntimeError
             "The --colmap-model-path can only be used when --skip-colmap is not set."),
      initial s w))
  ∧ (skip_colmap s = true →
     path_exists X (output_dir s // colmap_model_path s) w = false →
     run X s w
     = (inl (RuntimeError
               ("The colmap-model-path "
                  +:+ str_path (output_dir s // colmap_model_path s)
                  +:+ " does not exist.")),
        initial s w)).
Proof.
  intros Hpath. split.
  - intros Hskip. apply run_raises_in_check.
    rewrite check_colmap_model_path_eq. cbn zeta. st_simpl.
    rewrite bool_decide_eq_true_2 by done. by rewrite Hskip.
  - intros Hskip Hmissing. apply run_raises_in_check.
    rewrite check_colmap_model_path_eq. cbn zeta. st_simpl.
    rewrite bool_decide_eq_true_2 by done. by rewrite Hskip, Hmissing.
Qed.

Lemma equirect_event_crop s (ev : Event Path) :
  equirect_event s ev → crop_as_coded (crop_factor s) ev.
Proof. destruct ev; cbn; tauto. Qed.

Lemma invoked_as_crop s s1 (ev : Event Path) :
  same_options s s1 → invoked_as X s1 ev → crop_as_coded (crop_factor s) ev.
Proof.
  intros Hopts. apply same_options_fields in Hopts as (_ & _ & _ & <- & _).
  destruct ev as [| | |? ? ? ? ? [nearest|]| | | | | |]; cbn; tauto.
Qed.

(** C10: in every run, whatever crop factor is configured, each
    invocation of [save_mask] is handed the crop factor
    [(0.0, 0.0, 0.0, 0.0)], while each invocation of [copy_images] (of the
    images and of the depth images) and the projection generator are handed
    the configured one. *)
Theorem mask_is_generated_with_zero_crop s w :
  Forall (crop_as_coded (crop_factor s)) (trace (run X s w).2).
Proof.
  destruct (run X s w) as [r st'] eqn:Hrun. cbn [snd].
  apply run_trace in Hrun as (s1 & head & tail & -> & Hhead & Htail & Hopts).
  rewrite Forall_app. split.
  - eapply Forall_impl; [done|]. apply equirect_event_crop.
  - eapply Forall_impl; [done|]. intros ev. by apply invoked_as_crop.
Qed.


(** *** Nothing before the manifest stage writes the manifest *)

Lemma quiet_bind {A B} (m : M Path World A) (k : A → M Path World B) :
  quiet m → (∀ a, quiet (k a)) → quiet (bind m k).
Proof.
  intros Hm Hk st Hst. apply wp_bind.
  eapply wp_mono; [by apply Hm| |done]. intros a st' Hst'. by apply Hk.
Qed.

Ltac quiet_block :=
  intros st Htr; unfold_stages; wp_go;
  try split; try done;
  st_simpl; rewrite ?Forall_app; repeat split; try assumption;
  repeat constructor; done.

Lemma check_colmap_model_path_quiet : quiet (check_colmap_model_path X).
Proof. quiet_block. Qed.

Lemma equirect_block_quiet : quiet (equirect_block X).
Proof. quiet_block. Qed.

Lemma image_block_quiet : quiet (image_block X).
Proof. quiet_block. Qed.

Lemma colmap_block_quiet : quiet (colmap_block X).
Proof. quiet_block. Qed.

Lemma cameras_check_quiet : quiet (cameras_check X).
Proof. quiet_block. Qed.

Lemma depth_block_quiet : quiet (depth_block X).
Proof. quiet_block. Qed.

Lemma modify_quiet (f : St → St) :
  (∀ st, trace (f st) = trace st) → quiet (modify f).
Proof. intros Hf st Htr. apply wp_modify. by rewrite Hf. Qed.

Lemma to_manifest_quiet : quiet (to_manifest X).
Proof.
  apply quiet_bind; [|intros _; apply cameras_check_quiet].
  apply quiet_bind; [|intros _; apply depth_block_quiet].
  apply quiet_bind; [|intros _; apply colmap_block_quiet].
  apply quiet_bind; [|intros _; apply image_block_quiet].
  apply quiet_bind; [|intros _].
  - apply quiet_bind; [apply check_colmap_model_path_quiet|].
    intros _. by apply modify_quiet.
  - apply quiet_bind; [apply equirect_block_quiet|].
    intros _. by apply modify_quiet.
Qed.

(** How the manifest stage extends the trace. *)
Lemma manifest_trace (st : St) n table r st' :
  num_frames st = Some n →
  image_id_to_depth_path st = Some table →
  manifest X st = (r, st') →
  let saved :=
    EvSaveTransforms (self st) n table (resolved_mask X st) (image_rename_map st) in
  (∃ f, r = inl (Propagated save_transforms_ f) ∧ trace st' = trace st ++ [saved])
  ∨ (r = inr tt ∧ ∃ lines, trace st' = trace st ++ saved :: map EvLog lines).
Proof.
  intros Hn Htable Hrun. rewrite (manifest_eq X st n table Hn Htable) in Hrun.
  cbn zeta in *.
  destruct (_save_transforms X _ _ _ _ _ (world st)) as [[f|lines] w'].
  - injection Hrun as <- <-. left. by exists f.
  - injection Hrun as <- <-. right. split; [done|].
    eexists (_ :: _). rewrite logged_trace. st_simpl.
    by rewrite <- !app_assoc.
Qed.

(** Every run either stops before the manifest stage, having written
    nothing, or reaches it with the frame count and the depth table bound. *)
Lemma run_anatomy s w r st' :
  run X s w = (r, st') →
  (∃ e, r = inl e ∧ to_manifest X (initial s w) = (inl e, st')
        ∧ Forall not_yet_saved (trace st') ∧ not_from_save e)
  ∨ (∃ st4 n table,
        to_manifest X (initial s w) = (inr tt, st4)
        ∧ num_frames st4 = Some n ∧ image_id_to_depth_path st4 = Some table
        ∧ Forall not_yet_saved (trace st4)
        ∧ manifest X st4 = (r, st')).
Proof.
  intros Hrun. destruct (to_manifest X (initial s w)) as [[e|[]] st4] eqn:Hpre.
  - left. unfold run, main in Hrun. erewrite bind_raises in Hrun by done.
    injection Hrun as <- <-. exists e.
    pose proof (wp_outcome _ _ _ _ _ _
                  (to_manifest_quiet (initial s w) (Forall_nil_2 _)) Hpre) as [? ?].
    done.
  - right. rewrite (run_from_manifest _ _ _ Hpre) in Hrun.
    destruct (to_manifest_reached X _ _ _ Hpre) as [Hcheck _].
    apply to_cameras_check_reached in Hcheck
      as (st2 & _ & _ & (_ & _ & [n Hn] & _) & _ & _ & [table Htable] & Hquiet).
    by exists st4, n, table.
Qed.


(** C7: the manifest is written once or not at all.  A run that returns
    invoked [_save_transforms] exactly once, after every collaborator and
    check, and only console messages follow it.  A run that ends in an
    exception raised anywhere but inside [_save_transforms] (the four
    [RuntimeError]s of [main] among them) never invoked it.  The remaining
    case is the manifest writer itself failing on its single invocation. *)
Theorem manifest_written_once_or_never s w :
  match run X s w with
  | (inr _, st) =>
      ∃ before saved logs,
        trace st = before ++ saved :: logs
        ∧ Forall not_yet_saved before
        ∧ is_save_transforms saved = true
        ∧ Forall (λ ev, is_log ev = true) logs
  | (inl (Propagated save_transforms_ _), st) =>
      ∃ before saved,
        trace st = before ++ [saved]
        ∧ Forall not_yet_saved before
        ∧ is_save_transforms saved = true
  | (inl _, st) => Forall not_yet_saved (trace st)
  end.
Proof.
  destruct (run X s w) as [r st'] eqn:Hrun.
  apply run_anatomy in Hrun
    as [(e & -> & _ & Hquiet & He)|(st4 & n & table & _ & Hn & Htable & Hquiet & Hrun)].
  - by destruct e as [| |[] ?].
  - apply (manifest_trace st4 n table) in Hrun as [(f & -> & ->)|(-> & lines & ->)];
      [| |done..].
    + by eexists _, _.
    + eexists _, _, _. split; [done|]. split; [done|]. split; [done|].
      apply Forall_forall. intros ev Hev. apply list_elem_of_fmap in Hev as (line & -> & _).
      done.
Qed.

Lemma equirect_event_upstream s (ev : Event Path) :
  equirect_event s ev → is_downstream ev = false.
Proof. by destruct ev. Qed.

Lemma invoked_as_sees s1 (ev : Event Path) : invoked_as X s1 ev → stage_sees s1 ev.
Proof. destruct ev as [| | |? ? ? ? ? [nearest|]| | | | | |]; cbn; tauto. Qed.

(** C8: with an equirectangular camera type, every stage downstream of the
    projection block runs after the projections were generated from the
    configured input, with the configured number of images per panorama, and
    sees the object re-tagged: its working input is the directory the
    generator returned and its camera type is "perspective". *)
Theorem equirectangular_is_retagged_before_downstream s w r st' :
  camera_type s = "equirectangular" →
  run X s w = (r, st') →
  ∀ ev, ev ∈ trace st' → is_downstream ev = true →
    ∃ size d w1 w2,
      compute_resolution_from_equirect X (data s) (images_per_equirect s) w
      = (inr size, w1)
      ∧ generate_planar_projections_from_equirectangular X
          (data s) size (images_per_equirect s) (crop_factor s) w1
        = (inr d, w2)
      ∧ stage_sees (with_camera_type "perspective" (with_data d s)) ev
      ∧ self st' = with_camera_type "perspective" (with_data d s).
Proof.
  intros Hcam Hrun ev Hev Hdown.
  destruct (to_images X (initial s w)) as [[e|[]] st0] eqn:Hpre.
  - unfold run in Hrun. rewrite main_from_images in Hrun.
    erewrite bind_raises in Hrun by done. injection Hrun as <- <-.
    apply to_images_raises in Hpre as [_ Hhead].
    rewrite Forall_forall in Hhead. apply Hhead, equirect_event_upstream in Hev.
    congruence.
  - rewrite (run_from_images _ _ _ Hpre) in Hrun.
    pose proof (preserves_outcome _ _ st0 _ _ (from_images_advances X st0)
                  (advances_refl X st0) Hrun) as (Hself & tail & Htrace & Htail).
    apply to_images_returns in Hpre as (s1 & w1 & evs & -> & Hretag & _).
    unfold retagged in Hretag. rewrite Hcam in Hretag. cbn in Hretag.
    destruct Hretag as (size & d & w' & Hsize & Hgen & -> & ->).
    st_simpl. exists size, d, w', w1. split; [done|]. split; [done|]. split; [|done].
    rewrite Htrace in Hev. apply elem_of_app in Hev as [Hev|Hev].
    + exfalso. revert Hdown. clear -Hev.
      rewrite !elem_of_cons in Hev. destruct Hev as [->|[->|[->|Hev]]]; try done.
      by apply elem_of_nil in Hev.
    + rewrite Forall_forall in Htail. by apply invoked_as_sees, Htail.
Qed.


(** *** What the manifest writer is handed *)

Lemma renames_received_app (tr1 tr2 : list (Event Path)) :
  renames_received (tr1 ++ tr2) = renames_received tr1 ++ renames_received tr2.
Proof. apply omap_app. Qed.

Lemma masks_received_app (tr1 tr2 : list (Event Path)) :
  masks_received (tr1 ++ tr2) = masks_received tr1 ++ masks_received tr2.
Proof. apply omap_app. Qed.

Lemma not_yet_saved_receives (tr : list (Event Path)) :
  Forall not_yet_saved tr → renames_received tr = [] ∧ masks_received tr = [].
Proof.
  induction 1 as [|ev tr Hev _ [IHr IHm]]; [done|].
  destruct ev; try done. all: cbn; by rewrite ?IHr, ?IHm.
Qed.

Lemma logs_receive (lines : list string) :
  renames_received (map EvLog lines : list (Event Path)) = []
  ∧ masks_received (map EvLog lines : list (Event Path)) = [].
Proof. induction lines as [|line lines [IHr IHm]]; [done|]. by cbn. Qed.

Lemma save_then_logs_receive (s : Self Path) n table m rn (lines : list string) :
  renames_received (EvSaveTransforms s n table m rn :: map EvLog lines) = [rn]
  ∧ masks_received (EvSaveTransforms s n table m rn :: map EvLog lines) = [m].
Proof.
  destruct (logs_receive lines) as [Hr Hm]. split.
  - change (renames_received ([EvSaveTransforms s n table m rn] ++ map EvLog lines)
            = [rn]).
    by rewrite renames_received_app, Hr.
  - change (masks_received ([EvSaveTransforms s n table m rn] ++ map EvLog lines)
            = [m]).
    by rewrite masks_received_app, Hm.
Qed.

(** The frame on reaching the manifest stage, against the frame on reaching
    COLMAP. *)
Lemma to_manifest_frame s w st4 :
  to_manifest X (initial s w) = (inr tt, st4) →
  ∃ st1,
    to_colmap X (initial s w) = (inr tt, st1)
    ∧ image_rename_map st4 = (if skip_colmap s then image_rename_map st1 else None)
    ∧ preprocessed X s st4
    ∧ Forall not_yet_saved (trace st4).
Proof.
  intros Hpre. apply to_manifest_reached in Hpre as [Hpre _].
  apply to_cameras_check_reached in Hpre
    as (st2 & Hpre & _ & Hpp & _ & Hrename & _ & Hquiet).
  apply to_depth_reached in Hpre as (st1 & Hpre & _ & _ & _ & Hrename' & _).
  exists st1. by rewrite Hrename, Hrename'.
Qed.

(** C1: the name-translation table of the preprocessing is the local
    [image_rename_map] on reaching the COLMAP stage: [None] when image
    processing was skipped, a table otherwise.  It is discarded exactly when
    COLMAP is invoked: the manifest writer is handed [None] when COLMAP is
    not skipped and the table unchanged when it is, and COLMAP is invoked
    exactly when it is not skipped.  A run that returns handed it over
    once. *)
Theorem name_table_is_forwarded_iff_colmap_is_skipped s w st1 r st' :
  to_colmap X (initial s w) = (inr tt, st1) →
  run X s w = (r, st') →
  (skip_image_processing s = true → image_rename_map st1 = None)
  ∧ (skip_image_processing s = false → is_Some (image_rename_map st1))
  ∧ (Exists (λ ev, is_run_colmap ev = true) (trace st') ↔ skip_colmap s = false)
  ∧ (renames_received (trace st') = []
     ∨ renames_received (trace st')
       = [if skip_colmap s then image_rename_map st1 else None])
  ∧ (r = inr tt →
     renames_received (trace st')
     = [if skip_colmap s then image_rename_map st1 else None]).
Proof.
  intros Hpre Hrun.
  pose proof (to_colmap_reached X _ _ _ Hpre)
    as ((Hopts & _) & _ & _ & _ & Hrename & Hquiet).
  pose proof (same_options_fields _ _ Hopts) as
    (_ & _ & _ & _ & _ & Hskip & _).
  split; [|split; [|split]].
  - intros Hip. by rewrite Hip in Hrename.
  - intros Hip. by rewrite Hip in Hrename.
  - pose proof Hrun as Hfrom. rewrite (run_from_colmap _ _ _ Hpre) in Hfrom.
    pose proof (preserves_outcome _ _ st1 _ _ (from_colmap_advances X st1)
                  (advances_refl X st1) Hfrom) as (_ & tail & Htrace & Htail).
    rewrite Htrace, Exists_app. split.
    + intros [Hin|Hin]; apply Exists_exists in Hin as (ev & Hev & Hcolmap).
      * rewrite Forall_forall in Hquiet. apply Hquiet in Hev.
        unfold not_yet_colmap in Hev. rewrite Hcolmap in Hev. done.
      * rewrite Forall_forall in Htail. apply Htail in Hev.
        destruct ev; try done. destruct Hev as [Hev _]. congruence.
    + intros Hno. unfold from_colmap in Hfrom.
      destruct (colmap_block X st1) as [[e|[]] st2] eqn:Hblock.
      * erewrite bind_raises in Hfrom by done. injection Hfrom as <- <-.
        rewrite colmap_block_eq, Hskip, Hno in Hblock.
        destruct (_run_colmap X (self st1) (world st1)) as [[f|[]] w']; [|done].
        injection Hblock as <- <-. st_simpl.
        apply app_inv_head in Htrace as <-. right. by constructor.
      * erewrite bind_returns in Hfrom by done.
        pose proof (preserves_outcome _ _ st2 _ _ (from_depth_advances X st2)
                      (advances_refl X st2) Hfrom) as (_ & tail' & Htrace' & _).
        rewrite colmap_block_eq, Hskip, Hno in Hblock.
        destruct (_run_colmap X (self st1) (world st1)) as [[f|[]] w']; [done|].
        injection Hblock as <-. st_simpl.
        rewrite Htrace', <- app_assoc in Htrace.
        apply app_inv_head in Htrace as <-. right. by constructor.
  - apply run_anatomy in Hrun
      as [(e & -> & _ & Hsaved & _)|(st4 & n & table & Hman & Hn & Htable & Hsaved & Hrun)].
    + apply not_yet_saved_receives in Hsaved as [-> _]. split; [by left|done].
    + apply to_manifest_frame in Hman as (st1' & Hpre' & Hrn & _).
      rewrite Hpre in Hpre'. injection Hpre' as <-.
      apply not_yet_saved_receives in Hsaved as [Hnone _].
      apply (manifest_trace st4 n table) in Hrun as [(f & -> & ->)|(-> & lines & ->)];
        [| |done..].
      * rewrite renames_received_app, Hnone. cbn. rewrite Hrn. split; [by right|done].
      * rewrite renames_received_app, Hnone.
        destruct (save_then_logs_receive (self st4) n table (resolved_mask X st4)
                    (image_rename_map st4) lines) as [-> _].
        cbn. rewrite Hrn. split; [by right|done].
Qed.


(** C5, as the code has it: when the run reaches the manifest stage, the
    manifest writer is invoked once and the mask reference it is handed is
    - nothing, if the masks directory does not exist;
    - the literal "masks/mask.png", if the directory exists and no
      per-frame mask path is configured;
    - the masks directory itself, if it exists and a per-frame mask path is
      configured. *)
Theorem mask_reference_at_manifest s w st4 r st' :
  to_manifest X (initial s w) = (inr tt, st4) →
  run X s w = (r, st') →
  ∃ mask_path,
    masks_received (trace st') = [mask_path]
    ∧ (path_exists X (parent (image_dir X (self st4)) /' "masks") (world st4) = false →
       mask_path = None)
    ∧ (path_exists X (parent (image_dir X (self st4)) /' "masks") (world st4) = true →
       frame_mask_path s = "" →
       mask_path = Some (MaskStr "masks/mask.png"))
    ∧ (path_exists X (parent (image_dir X (self st4)) /' "masks") (world st4) = true →
       frame_mask_path s ≠ "" →
       mask_path = Some (MaskDir (parent (image_dir X (self st4)) /' "masks"))).
Proof.
  intros Hpre Hrun. rewrite (run_from_manifest _ _ _ Hpre) in Hrun.
  pose proof (to_manifest_frame _ _ _ Hpre) as (_ & _ & _ & (Hopts & _) & Hsaved).
  pose proof (same_options_fields _ _ Hopts) as
    (_ & _ & _ & _ & _ & _ & _ & _ & _ & Hmasks & _).
  destruct (to_manifest_reached X _ _ _ Hpre) as [Hcheck _].
  apply to_cameras_check_reached in Hcheck
    as (_ & _ & _ & (_ & _ & [n Hn] & _) & _ & _ & [table Htable] & _).
  apply not_yet_saved_receives in Hsaved as [_ Hnone].
  exists (resolved_mask X st4). split.
  - apply (manifest_trace st4 n table) in Hrun as [(f & -> & ->)|(-> & lines & ->)];
      [| |done..]; rewrite masks_received_app, Hnone; [done|].
    by destruct (save_then_logs_receive (self st4) n table (resolved_mask X st4)
                   (image_rename_map st4) lines) as [_ ->].
  - unfold resolved_mask. cbn zeta. rewrite Hmasks.
    destruct (path_exists X _ (world st4)); [|done].
    destruct (String.eqb_spec (frame_mask_path s) ""); by repeat split.
Qed.

(** The flag that decides whether the camera file is required. *)
Lemma to_cameras_check_require s w st3 :
  to_cameras_check X (initial s w) = (inr tt, st3) →
  require_cameras_exist st3
  = bool_decide (colmap_model_path s ≠ default_colmap_path X) || negb (skip_colmap s).
Proof.
  intros Hpre. apply to_cameras_check_reached in Hpre
    as (st2 & Hpre & _ & _ & Hreq & _).
  apply to_depth_reached in Hpre as (st1 & _ & _ & _ & Hreq' & _).
  by rewrite Hreq.
Qed.

(** C3, as the code has it: when the run reaches line 126 and
    [cameras.bin] is missing under the absolute COLMAP model path, the run
    ends there in the [RuntimeError] of line 127, before the manifest stage,
    provided COLMAP was run or a model path other than the default was
    supplied.  When COLMAP is skipped with the default model path the file is
    not looked for and the run goes on to the manifest stage. *)
Theorem missing_cameras_file_is_fatal_when_required s w st3 :
  to_cameras_check X (initial s w) = (inr tt, st3) →
  path_exists X (absolute_colmap_model_path X (self st3) /' "cameras.bin") (world st3)
  = false →
  (skip_colmap s = false ∨ colmap_model_path s ≠ default_colmap_path X →
   run X s w
   = (inl (RuntimeError
             ("Could not find existing COLMAP results ("
                +:+ str_path (colmap_model_path s /' "cameras.bin") +:+ ").")),
      st3)
   ∧ Forall not_yet_saved (trace st3))
  ∧ (skip_colmap s = true → colmap_model_path s = default_colmap_path X →
     to_manifest X (initial s w) = (inr tt, st3)).
Proof.
  intros Hpre Hmissing.
  pose proof (to_cameras_check_require _ _ _ Hpre) as Hreq.
  pose proof (to_cameras_check_reached X _ _ _ Hpre)
    as (_ & _ & _ & (Hopts & _) & _ & _ & _ & Hquiet).
  pose proof (same_options_fields _ _ Hopts) as
    (_ & _ & _ & _ & _ & _ & _ & Hmodel & _).
  split.
  - intros Hrequired. split; [|done].
    rewrite (run_from_cameras_check _ _ _ Hpre). unfold from_cameras_check.
    erewrite bind_raises; [done|].
    rewrite cameras_check_eq, Hmissing, Hmodel, Hreq.
    destruct Hrequired as [->|Hpath]; [by rewrite orb_true_r|].
    by rewrite bool_decide_eq_true_2.
  - intros Hskip Hpath. unfold to_manifest. erewrite bind_returns by done.
    rewrite cameras_check_eq, Hreq, Hskip.
    by rewrite bool_decide_eq_false_2 by (by intros []).
Qed.

(** C9: with an external depth directory and image processing skipped, a
    run that reaches the depth stage ends there in the [UnboundLocalError]
    (a [NameError]) for [copied_depth_images], the only change to the frame
    being the empty table of line 123; and no run with that configuration
    returns or writes a manifest. *)
Theorem external_depth_needs_image_processing s w :
  depth_path s ≠ "" →
  skip_image_processing s = true →
  (∀ st2,
     to_depth X (initial s w) = (inr tt, st2) →
     run X s w
     = (inl (UnboundLocalError "copied_depth_images"),
        set_image_id_to_depth_path ∅ st2))
  ∧ (∃ e st', run X s w = (inl e, st') ∧ Forall not_yet_saved (trace st')).
Proof.
  intros Hdepth Hskip.
  assert (∀ st2, to_depth X (initial s w) = (inr tt, st2) →
                 depth_block X st2
                 = (inl (UnboundLocalError "copied_depth_images"),
                    set_image_id_to_depth_path ∅ st2)) as Hunbound.
  { intros st2 Hpre. apply to_depth_reached in Hpre
      as (_ & _ & _ & (Hopts & _ & _ & Hlocals) & _).
    pose proof (same_options_fields _ _ Hopts) as
      (_ & _ & _ & _ & _ & _ & _ & _ & _ & _ & Hd).
    rewrite Hskip in Hlocals. cbn [orb] in Hlocals. destruct Hlocals as [Hcopied _].
    apply depth_block_unbound; [by rewrite Hd|done]. }
  split.
  - intros st2 Hpre. rewrite (run_from_depth _ _ _ Hpre). unfold from_depth.
    erewrite bind_raises; [done|]. by apply Hunbound.
  - destruct (run X s w) as [r st'] eqn:Hrun.
    apply run_anatomy in Hrun as [(e & -> & _ & Hquiet & _)|(st4 & _ & _ & Hpre & _)].
    + by exists e, st'.
    + apply to_manifest_reached in Hpre as [Hpre _].
      apply to_cameras_check_reached in Hpre as (st2 & Hpre & Hblock & _).
      rewrite (Hunbound _ Hpre) in Hblock. done.
Qed.


Lemma no_export_with_external_depth s w r st' :
  depth_path s ≠ "" →
  run X s w = (r, st') →
  Forall (λ ev, is_export_depth ev = false) (trace st').
Proof.
  intros Hdepth Hrun.
  apply run_trace in Hrun as (s1 & head & tail & -> & Hhead & Htail & Hopts).
  pose proof (same_options_fields _ _ Hopts) as
    (_ & _ & _ & _ & _ & _ & _ & _ & _ & _ & Hd).
  rewrite Forall_app. split.
  - eapply Forall_impl; [done|]. intros ev Hev. by destruct ev.
  - eapply Forall_impl; [done|]. intros ev Hev. destruct ev; try done.
    destruct Hev as [Hev _]. congruence.
Qed.

(** C2: the depth table has two sources and the configuration alone picks
    one.  Without an external depth directory the depth stage invokes
    [_export_depth].  With one, no run ever invokes [_export_depth], and when
    the depth stage is reached with the copied depth images bound to
    [copied] (the ordered dict [copy_images] returned for the external
    directory), the stage returns with a table of exactly [length copied]
    entries, keyed 1, 2, ..., whose entry for the [i]-th copied image is the
    output depth directory joined with "frame_", the count zero-padded to
    width 5, and the suffix of that image's source path. *)
Theorem depth_table_from_external_directory s w st2 :
  to_depth X (initial s w) = (inr tt, st2) →
  (depth_path s = "" →
   trace (depth_block X st2).2 = trace st2 ++ [EvExportDepth (self st2)])
  ∧ (depth_path s ≠ "" →
     (∀ r st', run X s w = (r, st') →
               Forall (λ ev, is_export_depth ev = false) (trace st'))
     ∧ ∀ copied,
         copied_depth_images st2 = Some copied →
         ∃ table,
           depth_block X st2 = (inr tt, set_image_id_to_depth_path table st2)
           ∧ size table = length copied
           ∧ (∀ k, is_Some (table !! k) ↔ (1 ≤ k ≤ Z.of_nat (length copied))%Z)
           ∧ (∀ i v,
                Py.keys copied !! i = Some v →
                table !! (Z.of_nat i + 1)%Z
                = Some (parent (image_dir X (self st2)) /' "depth"
                          /' ("frame_" +:+ Py.format_05 (Z.of_nat i + 1) +:+ suffix v)))).
Proof.
  intros Hpre.
  pose proof (to_depth_reached X _ _ _ Hpre)
    as (_ & _ & _ & (Hopts & _ & _ & Hlocals) & _).
  pose proof (same_options_fields _ _ Hopts) as
    (_ & _ & _ & _ & _ & _ & _ & _ & _ & _ & Hd).
  split.
  - intros Hnone. rewrite depth_block_export by by rewrite Hd. cbn zeta.
    by destruct (_export_depth X (self st2) (world st2)) as [[f|exported] w'].
  - intros Hdepth. split; [intros r st'; by apply no_export_with_external_depth|].
    intros copied Hcopied.
    destruct (skip_image_processing s || String.eqb (depth_path s) "");
      destruct Hlocals as [Hsome Hout]; [congruence|].
    exists (depth_table_of (parent (image_dir X (self st2)) /' "depth") copied).
    split; [apply depth_block_external; [by rewrite Hd|done..]|].
    split; [apply depth_table_size|]. split; [apply depth_table_keys|].
    apply depth_table_lookup.
Qed.

End Claims.

Section ClaimsOnTheSpecifiedCopy.
Context {Path : Type} `{PathLib Path} {World : Type}.
Variable X : Externals Path World.
Local Notation "'St'" := (State Path World).

(** The copy step of the specification fails on an empty source, leaving
    the world as the listing left it. *)
Lemma copy_images_checked_empty src dir crop v n nearest w w' :
  list_images X src w = (inr [], w') →
  copy_images (with_checked_copy X) src dir crop v n nearest w
  = (inl ZeroUsableImages, w').
Proof. intros Hlist. cbn. unfold copy_images_checked. by rewrite Hlist. Qed.

(** C4: with image processing not skipped and the copy step as the
    specification describes it, a run that reaches the image stage and finds
    no image in the working input ends there, in the failure of
    [copy_images]: COLMAP was not invoked, nor the depth export, nor the
    manifest writer. *)
Theorem zero_images_abort_before_colmap s w st0 w' :
  skip_image_processing s = false →
  to_images (with_checked_copy X) (initial s w) = (inr tt, st0) →
  list_images X (data (self st0)) (world st0) = (inr [], w') →
  ∃ st',
    run (with_checked_copy X) s w
    = (inl (Propagated copy_images_ ZeroUsableImages), st')
    ∧ Forall not_yet_colmap (trace st').
Proof.
  intros Hskip Hpre Hlist.
  rewrite (run_from_images _ _ _ _ Hpre).
  pose proof (to_images_returns _ _ _ _ Hpre) as (s1 & w1 & evs & -> & Hretag & _).
  apply retagged_facts in Hretag as (Hopts & _ & _ & Hquiet).
  pose proof (same_options_fields _ _ Hopts) as
    (_ & _ & _ & _ & _ & _ & Hip & _).
  st_simpl. eexists. split.
  - unfold from_images. erewrite bind_raises; [done|].
    unfold image_block. unfold bind at 1, gets at 1. st_simpl.
    rewrite Hip, Hskip. cbn [negb].
    unfold bind at 1, call at 1. st_simpl.
    by rewrite (copy_images_checked_empty _ _ _ _ _ _ _ _ Hlist).
  - st_simpl. rewrite Forall_app. split; [done|]. by repeat constructor.
Qed.

(** The check [main] itself makes, in the branch that skips image
    processing (line 107). *)
Lemma zero_images_when_skipping (st : St) w' :
  skip_image_processing (self st) = true →
  list_images X (data (self st)) (world st) = (inr [], w') →
  image_block X st
  = (inl (RuntimeError "No usable images in the data folder."),
     set_num_frames 0 (set_world w' (record_event (EvListImages (data (self st))) st))).
Proof.
  intros Hskip Hlist. unfold image_block, bind, gets, call, modify, read_local, raise.
  rewrite Hskip. st_simpl. rewrite Hlist. by st_simpl.
Qed.

End ClaimsOnTheSpecifiedCopy.

(** ** Further properties of [main] *)

Section Further.

Context {Path : Type} `{PathLib Path} {World : Type}.
Variable X : Externals Path World.

Local Notation "'St'" := (State Path World).

(** X1: with image processing skipped, [main] itself refuses an input without
    images (lines 106-108): the run ends in its [RuntimeError] before COLMAP,
    the depth export or the manifest writer is invoked. *)
Theorem zero_images_abort_when_processing_is_skipped s w st0 w' :
  skip_image_processing s = true →
  to_images X (initial s w) = (inr tt, st0) →
  list_images X (data (self st0)) (world st0) = (inr [], w') →
  ∃ st',
    run X s w = (inl (RuntimeError "No usable images in the data folder."), st')
    ∧ Forall not_yet_colmap (trace st').
Proof.
  intros Hskip Hpre Hlist.
  rewrite (run_from_images _ _ _ _ Hpre).
  pose proof (to_images_returns _ _ _ _ Hpre) as (s1 & w1 & evs & -> & Hretag & _).
  apply retagged_facts in Hretag as (Hopts & _ & _ & Hquiet).
  pose proof (same_options_fields _ _ Hopts) as
    (_ & _ & _ & _ & _ & _ & Hip & _).
  st_simpl. eexists. split.
  - unfold from_images. erewrite bind_raises; [done|].
    apply zero_images_when_skipping; st_simpl; [congruence|done].
  - st_simpl. rewrite Forall_app. split; [done|]. by repeat constructor.
Qed.

(** *** The only local that can be read unbound *)

Lemma binds_before_reading_bind {A B} (m : M Path World A) (k : A → M Path World B) :
  binds_before_reading m → (∀ a, binds_before_reading (k a)) →
  binds_before_reading (bind m k).
Proof.
  intros Hm Hk st. apply wp_bind.
  eapply wp_mono; [by apply Hm| |done]. intros a st' _. by apply Hk.
Qed.

Lemma to_depth_binds_before_reading : binds_before_reading (to_depth X).
Proof.
  apply binds_before_reading_bind; [|intros _; intros st; unfold_stages; by wp_go].
  apply binds_before_reading_bind; [|intros _; intros st; unfold_stages; by wp_go].
  apply binds_before_reading_bind; [|intros _].
  - apply binds_before_reading_bind; [|intros _; intros st; by wp_go].
    intros st; unfold_stages; by wp_go.
  - apply binds_before_reading_bind; [|intros _; intros st; by wp_go].
    intros st; unfold_stages; by wp_go.
Qed.


Lemma from_cameras_check_binds_before_reading (st3 : St) e st' :
  is_Some (num_frames st3) →
  is_Some (image_id_to_depth_path st3) →
  from_cameras_check X st3 = (inl e, st') →
  bound_locals e.
Proof.
  intros [n Hn] [table Htable]. unfold from_cameras_check, bind.
  rewrite cameras_check_eq.
  destruct (require_cameras_exist st3 && _).
  - by intros [= <- _].
  - rewrite (manifest_eq X st3 n table Hn Htable). cbn zeta.
    destruct (_save_transforms X _ _ _ _ _ (world st3)) as [[f|lines] w']; [|done].
    by intros [= <- _].
Qed.

(** X2: no local of [main] other than [copied_depth_images] is ever read
    unbound, and that one only with an external depth directory and image
    processing skipped. *)
Theorem only_copied_depth_images_can_be_unbound s w var st' :
  run X s w = (inl (UnboundLocalError var), st') →
  var = "copied_depth_images"
  ∧ depth_path s ≠ ""
  ∧ skip_image_processing s = true.
Proof.
  intros Hrun. unfold run in Hrun. rewrite main_from_depth in Hrun.
  destruct (to_depth X (initial s w)) as [[e|[]] st2] eqn:Hpre.
  - erewrite bind_raises in Hrun by done. injection Hrun as -> _.
    by pose proof (wp_outcome _ _ _ _ _ _ (to_depth_binds_before_reading _) Hpre).
  - erewrite bind_returns in Hrun by done.
    apply to_depth_reached in Hpre
      as (_ & _ & _ & (Hopts & _ & Hframes & Hlocals) & _).
    pose proof (same_options_fields _ _ Hopts) as
      (_ & _ & _ & _ & _ & _ & _ & _ & _ & _ & Hd).
    unfold from_depth in Hrun.
    destruct (depth_block X st2) as [[e|[]] st3] eqn:Hblock.
    + erewrite bind_raises in Hrun by done. injection Hrun as -> <-.
      destruct (String.eqb_spec (depth_path s) "") as [Hnone|Hsome].
      * rewrite depth_block_export in Hblock by congruence. cbn zeta in Hblock.
        by destruct (_export_depth X (self st2) (world st2)) as [[f|ex] w'].
      * destruct (skip_image_processing s); cbn [orb] in Hlocals.
        -- destruct Hlocals as [Hcopied _].
           rewrite depth_block_unbound in Hblock by (done || congruence).
           by injection Hblock as <- _.
        -- destruct Hlocals as [[copied Hcopied] Hout].
           erewrite depth_block_external in Hblock by (done || congruence). done.
    + erewrite bind_returns in Hrun by done.
      pose proof (wp_outcome _ _ _ _ _ _ (depth_block_locals X st2) Hblock)
        as (_ & _ & _ & Hn & _ & _ & Htable).
      rewrite <- Hn in Hframes.
      by pose proof (from_cameras_check_binds_before_reading _ _ _ Hframes Htable Hrun).
Qed.

End Further.

(** ** More of [main]: order, guards, failures, the summary *)

Section Coverage.
Context {Path : Type} `{PathLib Path} {World : Type}.
Variable X : Externals Path World.
Local Notation "'St'" := (State Path World).

(** *** Composing invariants along [main] *)

Lemma upholds_bind {A B} (I : St → Prop) E (m : M Path World A) (k : A → M Path World B) :
  upholds I E m → (∀ a, upholds I E (k a)) → upholds I E (bind m k).
Proof.
  intros Hm Hk st HI. apply wp_bind.
  eapply wp_mono; [by apply Hm| |done]. intros a st' HI'. by apply Hk.
Qed.

Lemma upholds_modify (I : St → Prop) E (f : St → St) :
  (∀ st, I st → I (f st)) → upholds I E (modify f).
Proof. intros Hf st HI. apply wp_modify. by apply Hf. Qed.

Lemma main_upholds (I : St → Prop) E :
  (∀ v st, I st → I (set_image_rename_map v st)) →
  (∀ v st, I st → I (set_summary_log v st)) →
  upholds I E (check_colmap_model_path X) →
  upholds I E (equirect_block X) →
  upholds I E (image_block X) →
  upholds I E (colmap_block X) →
  upholds I E (depth_block X) →
  upholds I E (cameras_check X) →
  upholds I E (manifest X) →
  upholds I E (main X).
Proof.
  intros Hrename Hsummary Hcheck Hequirect Himage Hcolmap Hdepth Hcameras Hmanifest.
  apply upholds_bind; [|done].
  apply upholds_bind; [|done].
  apply upholds_bind; [|done].
  apply upholds_bind; [|done].
  apply upholds_bind; [|done].
  apply upholds_bind; [|intros _].
  - apply upholds_bind; [done|]. intros _. apply upholds_modify. apply Hrename.
  - apply upholds_bind; [done|]. intros _. apply upholds_modify. apply Hsummary.
Qed.

Lemma upholds_run (I : St → Prop) E s w :
  upholds I E (main X) → I (initial s w) →
  I (run X s w).2
  ∧ match (run X s w).1 with inl e => E e (run X s w).2 | inr _ => True end.
Proof.
  intros Hmain Hinit. specialize (Hmain _ Hinit). unfold wp in Hmain. unfold run.
  by destruct (main X (initial s w)) as [[e|[]] st'].
Qed.

(** *** The invocations come in the order of the source *)

Lemma ordered_below_mono k k' (tr : list (Event Path)) :
  ordered_below k tr → (k ≤ k')%nat → ordered_below k' tr.
Proof.
  intros [Hsorted Hbound] Hk. split; [done|].
  eapply Forall_impl; [done|]. intros r Hr. cbn in *. lia.
Qed.

Lemma ordered_below_log k (tr : list (Event Path)) ev :
  stage_rank ev = None → ordered_below k tr → ordered_below k (tr ++ [ev]).
Proof.
  intros Hev [Hsorted Hbound]. unfold ordered_below.
  rewrite omap_app. cbn. rewrite Hev, app_nil_r. done.
Qed.

Lemma ordered_below_snoc k (tr : list (Event Path)) ev r :
  ordered_below k tr → stage_rank ev = Some r → (k ≤ r)%nat →
  ordered_below (S r) (tr ++ [ev]).
Proof.
  intros [Hsorted Hbound] Hev Hk. unfold ordered_below.
  rewrite omap_app. cbn. rewrite Hev. split.
  - apply StronglySorted_app_2; [|done|repeat constructor].
    intros r1 r2 Hr1 Hr2. apply list_elem_of_singleton in Hr2 as ->.
    rewrite Forall_forall in Hbound. apply Hbound in Hr1. lia.
  - rewrite Forall_app. split; [|repeat constructor; lia].
    eapply Forall_impl; [done|]. intros r' Hr'. cbn in *. lia.
Qed.

Lemma ranked_bind {A B} k1 k2 k3 (m : M Path World A) (f : A → M Path World B) :
  ranked k1 k2 m → (∀ a, ranked k2 k3 (f a)) → ranked k1 k3 (bind m f).
Proof.
  intros Hm Hf st Hst. apply wp_bind.
  eapply wp_mono; [by apply Hm| |done]. intros a st' Hst'. by apply Hf.
Qed.

Ltac ordered_solve :=
  lazymatch goal with
  | |- ordered_below _ (_ ++ [_]) =>
      first [ apply ordered_below_log; [reflexivity | ordered_solve]
            | eapply ordered_below_snoc; [ordered_solve | reflexivity | lia]
            | eapply ordered_below_mono;
              [eapply ordered_below_snoc; [ordered_solve | reflexivity | lia] | lia] ]
  | |- ordered_below _ _ =>
      first [eassumption | eapply ordered_below_mono; [eassumption | lia]]
  end.

Ltac ranked_block :=
  intros st Htr; unfold_stages; wp_go; ordered_solve.

Lemma check_colmap_model_path_ranked : ranked 0 0 (check_colmap_model_path X).
Proof. ranked_block. Qed.

Lemma equirect_block_ranked : ranked 0 2 (equirect_block X).
Proof. ranked_block. Qed.

Lemma image_block_ranked : ranked 2 6 (image_block X).
Proof. ranked_block. Qed.

Lemma colmap_block_ranked : ranked 6 7 (colmap_block X).
Proof. ranked_block. Qed.

Lemma depth_block_ranked : ranked 7 8 (depth_block X).
Proof. ranked_block. Qed.

Lemma cameras_check_ranked : ranked 8 8 (cameras_check X).
Proof. ranked_block. Qed.

Lemma manifest_ranked : ranked 8 9 (manifest X).
Proof. ranked_block. Qed.

Lemma modify_ranked k (f : St → St) :
  (∀ st, trace (f st) = trace st) → ranked k k (modify f).
Proof. intros Hf st Htr. apply wp_modify. by rewrite Hf. Qed.

Lemma main_ranked : ranked 0 9 (main X).
Proof.
  apply (ranked_bind 0 8 9); [|intros _; apply manifest_ranked].
  apply (ranked_bind 0 8 8); [|intros _; apply cameras_check_ranked].
  apply (ranked_bind 0 7 8); [|intros _; apply depth_block_ranked].
  apply (ranked_bind 0 6 7); [|intros _; apply colmap_block_ranked].
  apply (ranked_bind 0 2 6); [|intros _; apply image_block_ranked].
  apply (ranked_bind 0 0 2).
  - apply (ranked_bind 0 0 0); [|intros _; by apply modify_ranked].
    apply check_colmap_model_path_ranked.
  - intros _. apply (ranked_bind 0 2 2); [|intros _; by apply modify_ranked].
    apply equirect_block_ranked.
Qed.

(** X3: the collaborators are invoked in the order of the source, each at
    most once, however the run ends; in particular the images are either
    copied or listed, never both. *)
Theorem collaborators_in_source_order s w :
  StronglySorted lt (omap stage_rank (trace (run X s w).2)).
Proof.
  pose proof (main_ranked (initial s w)) as Hwp.
  unfold run. unfold wp in Hwp.
  destruct (main X (initial s w)) as [[e|[]] st'];
    apply Hwp; split; constructor.
Qed.

(** *** Every invocation is made under its guard *)

Lemma equirect_event_permitted s (ev : Event Path) :
  equirect_event s ev → permitted X s ev.
Proof. destruct ev; cbn; tauto. Qed.

Lemma invoked_as_permitted s s1 (ev : Event Path) :
  same_options s s1 →
  (colmap_model_path s ≠ default_colmap_path X → skip_colmap s = true) →
  invoked_as X s1 ev → permitted X s ev.
Proof.
  intros Hopts Hmodel.
  pose proof (same_options_fields _ _ Hopts) as
    (_ & _ & _ & _ & _ & Hskip & Hip & _ & _ & _ & Hdepth).
  destruct ev as [| | |? ? ? ? ? [nearest|]| | | | | |]; cbn;
    rewrite ?Hskip, ?Hip, ?Hdepth; try tauto.
  intros [Hrun _]. split; [done|].
  destruct (decide (colmap_model_path s = default_colmap_path X)) as [|Hne]; [done|].
  apply Hmodel in Hne. congruence.
Qed.

(** X4: the options are honoured.  Whatever the outcome, the trace holds
    only invocations whose guard in the source is satisfied by the
    configuration the run started with. *)
Theorem invocations_respect_the_options s w :
  Forall (permitted X s) (trace (run X s w).2).
Proof.
  destruct (run X s w) as [r st'] eqn:Hrun. cbn.
  destruct (to_images X (initial s w)) as [[e|[]] st0] eqn:Hpre.
  - unfold run in Hrun. rewrite main_from_images in Hrun.
    erewrite bind_raises in Hrun by done. injection Hrun as <- <-.
    apply to_images_raises in Hpre as [_ Hhead].
    eapply Forall_impl; [done|]. apply equirect_event_permitted.
  - rewrite (run_from_images _ _ _ _ Hpre) in Hrun.
    pose proof (preserves_outcome _ _ st0 _ _ (from_images_advances X st0)
                  (advances_refl X st0) Hrun) as (Hself & tail & -> & Htail).
    apply to_images_returns in Hpre as (s1 & w1 & evs & -> & Hretag & Hmodel).
    apply retagged_facts in Hretag as (Hopts & _ & Hhead & _).
    st_simpl. rewrite Forall_app. split.
    + eapply Forall_impl; [done|]. apply equirect_event_permitted.
    + eapply Forall_impl; [done|]. intros ev.
      apply invoked_as_permitted; [done|]. intros Hne. by apply Hmodel.
Qed.

(** *** The copy of the depth images *)

Lemma follows_mkdir_snoc prev (tr : list (Event Path)) ev :
  follows_mkdir prev (tr ++ [ev])
  ↔ follows_mkdir prev tr
    ∧ match ev with
      | EvCopyImages _ dir _ _ _ (Some _) =>
          from_option Some prev (last tr) = Some (EvMkdir dir)
      | _ => True
      end.
Proof.
  revert prev. induction tr as [|ev' tr IH]; intros prev.
  - cbn. tauto.
  - cbn [app follows_mkdir]. rewrite IH.
    replace (from_option Some prev (last (ev' :: tr)))
      with (from_option Some (Some ev') (last tr)); [tauto|].
    destruct tr as [|ev'' tr]; [done|]. rewrite last_cons_cons.
    destruct (last (ev'' :: tr)) eqn:Hlast; [done|]. by apply last_None in Hlast.
Qed.

Ltac follows_mkdir_solve :=
  st_simpl; rewrite ?follows_mkdir_snoc; repeat split; try assumption;
  rewrite ?last_snoc; done.

Lemma depth_copy_follows_mkdir :
  upholds (λ st : St, follows_mkdir None (trace st)) (λ _ _, True) (main X).
Proof.
  apply main_upholds; try done.
  all: intros st Htr; unfold_stages; wp_go; try split; try done; follows_mkdir_solve.
Qed.

Lemma invoked_as_depth_copy s s1 (ev : Event Path) :
  same_options s s1 → invoked_as X s1 ev → depth_copy_as_coded X s s1 ev.
Proof.
  intros Hopts.
  pose proof (same_options_fields _ _ Hopts) as
    (_ & Hv & _ & Hcrop & Hn & _ & _ & _ & _ & _ & Hdepth).
  destruct ev as [| | |? ? ? ? ? [nearest|]| | | | | |]; cbn; try done.
  rewrite Hv, Hcrop, Hn, Hdepth. tauto.
Qed.

Lemma equirect_event_depth_copy s s' (ev : Event Path) :
  equirect_event s ev → depth_copy_as_coded X s s' ev.
Proof. by destruct ev. Qed.

(** X5: the depth images are copied as lines 95-104 say.  In the trace of
    any run a copy with [nearest_neighbor] passed comes directly after the
    creation of its destination directory, which is [depth] beside the
    image directory of the object; it reads [Path(depth_path)], passes
    [nearest_neighbor=True], and has the crop factor, verbosity and number
    of downscales of the configuration. *)
Theorem depth_images_are_copied_into_the_created_directory s w :
  follows_mkdir None (trace (run X s w).2)
  ∧ Forall (depth_copy_as_coded X s (self (run X s w).2)) (trace (run X s w).2).
Proof.
  split; [by apply (upholds_run _ _ s w depth_copy_follows_mkdir)|].
  destruct (run X s w) as [r st'] eqn:Hrun. cbn.
  destruct (to_images X (initial s w)) as [[e|[]] st0] eqn:Hpre.
  - unfold run in Hrun. rewrite main_from_images in Hrun.
    erewrite bind_raises in Hrun by done. injection Hrun as <- <-.
    apply to_images_raises in Hpre as [_ Hhead].
    eapply Forall_impl; [done|]. intros ev. apply equirect_event_depth_copy.
  - rewrite (run_from_images _ _ _ _ Hpre) in Hrun.
    pose proof (preserves_outcome _ _ st0 _ _ (from_images_advances X st0)
                  (advances_refl X st0) Hrun) as (Hself & tail & -> & Htail).
    apply to_images_returns in Hpre as (s1 & w1 & evs & -> & Hretag & _).
    apply retagged_facts in Hretag as (Hopts & _ & Hhead & _).
    st_simpl. rewrite Hself, Forall_app. split.
    + eapply Forall_impl; [done|]. intros ev. apply equirect_event_depth_copy.
    + eapply Forall_impl; [done|]. intros ev. by apply invoked_as_depth_copy.
Qed.

(** *** How a run can fail *)

Lemma main_fails_in_its_invocation :
  upholds (λ _ : St, True) fails_in_its_invocation (main X).
Proof.
  apply main_upholds; try done.
  all: intros st _; unfold_stages; wp_go; try done.
  all: split; [done|]; cbn; by eexists _, _.
Qed.

(** X6: [main] handles no exception.  When a collaborator fails, its
    invocation is the last entry of the trace: nothing is invoked and
    nothing is printed after it, and the failure is the outcome of the run. *)
Theorem collaborator_failure_ends_the_run s w who f st' :
  run X s w = (inl (Propagated who f), st') →
  ∃ before ev, trace st' = before ++ [ev] ∧ invoker ev = Some who.
Proof.
  intros Hrun.
  pose proof (upholds_run _ _ s w main_fails_in_its_invocation I) as [_ Hfail].
  by rewrite Hrun in Hfail.
Qed.

(** *** What [main] does to the object *)

Lemma main_reassigned s :
  upholds (λ st : St, reassigned s (self st)) (λ _ _, True) (main X).
Proof.
  apply main_upholds; try done.
  all: intros st Hst; unfold_stages; wp_go; try done.
  destruct Hst as [Hopts [Hsame|[Hcam Hpers]]].
  - rewrite Hsame in *. split; [apply same_options_retag|]. right. by split.
  - match goal with Heq : camera_type (self st) = _ |- _ => by rewrite Hpers in Heq end.
Qed.

(** X7: the only attributes of the object [main] assigns are [data] and
    [camera_type], and those only for equirectangular input: after any run
    the object is the one the run started with, or the run started with the
    camera type [equirectangular] and left it [perspective]. *)
Theorem object_is_reassigned_only_for_equirectangular_input s w :
  reassigned s (self (run X s w).2).
Proof.
  apply (upholds_run _ _ s w (main_reassigned s)).
  split; [apply same_options_refl|by left].
Qed.

(** *** The errors [main] raises itself *)

Lemma main_raises_as_coded s :
  upholds (requirement_is_founded X s) (raised_as_coded X s) (main X).
Proof.
  apply main_upholds; try done.
  all: intros st Hst; unfold_stages; wp_go; try done.
  all: unfold requirement_is_founded, raised_as_coded, runtime_error_of in *; st_simpl.
  all: repeat match goal with
         | Hinv : _ ∧ _ |- _ => destruct Hinv
         | Hd : bool_decide _ = true |- _ => apply bool_decide_eq_true in Hd
         | Hd : bool_decide _ = false |- _ => apply bool_decide_eq_false in Hd
         | Hz : (_ =? _)%Z = true |- _ => apply Z.eqb_eq in Hz; rewrite Hz
         end.
  all: try match goal with
         | Hopts : same_options _ (self _) |- _ =>
             pose proof (same_options_fields _ _ Hopts) as
               (Hout & _ & _ & _ & _ & Hskip & Hip & Hmodel & _);
             rewrite ?Hout, ?Hskip, ?Hip, ?Hmodel in *
         end.
  all: try (split; [done|]; auto; fail).
  all: try (split; [done|]; intros _; auto; fail).
  all: (split; [split; [done|auto]|]).
  all: try done.
  all: auto 10.
Qed.

(** X8: [main] raises a [RuntimeError] in four places and nowhere else.  A
    run that ends in one ends in that of line 51 (an explicit model path
    without [skip_colmap]), of line 53 (an explicit model path that does not
    exist under the output directory), of line 108 (image processing skipped
    and no image listed) or of line 127 (no camera file although COLMAP ran
    or the model path is explicit), each with the message of its line. *)
Theorem runtime_errors_are_the_four_of_the_source s w msg st' :
  run X s w = (inl (RuntimeError msg), st') →
  runtime_error_of X s st' msg.
Proof.
  intros Hrun.
  assert (requirement_is_founded X s (initial s w)) as Hinit.
  { split; [apply same_options_refl|done]. }
  pose proof (upholds_run _ _ s w (main_raises_as_coded s) Hinit) as [_ Hraised].
  by rewrite Hrun in Hraised.
Qed.


(** *** The summary *)





Lemma logged_frame (lines : list string) (st : St) :
  self (logged lines st) = self st
  ∧ num_frames (logged lines st) = num_frames st
  ∧ image_id_to_depth_path (logged lines st) = image_id_to_depth_path st
  ∧ image_rename_map (logged lines st) = image_rename_map st
  ∧ summary_log (logged lines st) = summary_log st
  ∧ world (logged lines st) = world st
  ∧ copied_depth_images (logged lines st) = copied_depth_images st.
Proof.
  revert st. induction lines as [|line lines IH]; intros st; [done|].
  cbn [logged foldl]. fold (logged lines (record_event (EvLog line) st)).
  by destruct (IH (record_event (EvLog line) st)) as (-> & -> & -> & -> & -> & -> & ->).
Qed.




(** *** The frame count and the table of names *)

Lemma dict_snoc {K V : Type} `{Countable K} (items : list (K * V)) kv :
  Py.dict (items ++ [kv]) = <[kv.1 := kv.2]> (Py.dict items).
Proof. unfold Py.dict. by rewrite foldl_app. Qed.

Lemma dict_lookup {K V : Type} `{Countable K} (items : list (K * V)) k v :
  Py.dict items !! k = Some v → (k, v) ∈ items.
Proof.
  induction items as [|[k' v'] items IH] using rev_ind; [done|].
  rewrite dict_snoc, elem_of_app, list_elem_of_singleton. cbn.
  destruct (decide (k' = k)) as [->|Hne].
  - rewrite lookup_insert_eq. intros [= ->]. by right.
  - rewrite lookup_insert_ne by done. auto.
Qed.

Lemma dict_keys {K V : Type} `{Countable K} (items : list (K * V)) k :
  is_Some (Py.dict items !! k) ↔ k ∈ items.*1.
Proof.
  induction items as [|[k' v'] items IH] using rev_ind.
  - cbn. rewrite lookup_empty, elem_of_nil. split; [by intros []|done].
  - rewrite dict_snoc, fmap_app, elem_of_app. cbn.
    rewrite list_elem_of_singleton. destruct (decide (k' = k)) as [->|Hne].
    + rewrite lookup_insert_eq. split; [by right|by eexists].
    + rewrite lookup_insert_ne by done. rewrite IH. split; [by left|]. by intros [?| ->].
Qed.

Lemma dict_size {K V : Type} `{Countable K} (items : list (K * V)) :
  (size (Py.dict items) ≤ length items)%nat.
Proof.
  induction items as [|kv items IH] using rev_ind; [done|].
  rewrite dict_snoc, length_app, map_size_insert. cbn.
  destruct (Py.dict items !! kv.1); unfold id; lia.
Qed.

Lemma dict_distinct {K V : Type} `{Countable K} (items : list (K * V)) :
  NoDup items.*1 →
  size (Py.dict items) = length items
  ∧ ∀ k v, (k, v) ∈ items → Py.dict items !! k = Some v.
Proof.
  induction items as [|[k' v'] items IH] using rev_ind; [by split; [|intros ?? ?%elem_of_nil]|].
  rewrite fmap_app, NoDup_app. intros (Hnodup & Hfresh & _).
  destruct (IH Hnodup) as [Hsize Hlookup].
  assert (Py.dict items !! k' = None) as Hnone.
  { apply eq_None_not_Some. rewrite dict_keys. intros Hin.
    apply (Hfresh _ Hin). cbn. by left. }
  rewrite dict_snoc, length_app, map_size_insert. cbn. rewrite Hnone. split; [lia|].
  intros k v. rewrite elem_of_app, list_elem_of_singleton.
  intros [Hin|[= -> ->]]; [|by rewrite lookup_insert_eq].
  rewrite lookup_insert_ne; [by apply Hlookup|].
  intros ->. apply Hlookup in Hin. congruence.
Qed.

Lemma image_block_counts (st : St) :
  wp (image_block X)
     (λ _ st',
        if skip_image_processing (self st) then
          image_rename_map st' = image_rename_map st
          ∧ ∃ images w',
              list_images X (data (self st)) (world st) = (inr images, w')
              ∧ images ≠ []
              ∧ num_frames st' = Some (Z.of_nat (length images))
        else
          ∃ copied w',
            copy_images X (data (self st)) (image_dir X (self st)) (crop_factor (self st))
              (verbose (self st)) (num_downscales (self st)) None (world st)
            = (inr copied, w')
            ∧ image_rename_map st' = Some (Py.dict (names_of copied))
            ∧ num_frames st' = Some (Py.len (Py.dict (names_of copied))))
     (λ _ _, True) st.
Proof.
  unfold_stages. wp_go; try done.
  all: try (eexists _, _; by split).
  split; [done|]. eexists _, _. split; [done|]. split; [|done].
  intros ->. done.
Qed.

(** X10: the frame count on leaving the image stage (lines 70-109).  With
    image processing skipped it is the number of images listed, which is not
    zero, and there is no table of names.  Otherwise the table of names is
    the dict of the file names of the copied pairs and the frame count is
    its length: the number of distinct source file names, at most the number
    of images copied, and equal to it when no two sources share a file name,
    in which case every copied pair is in the table. *)
Theorem frame_count_on_leaving_the_image_stage s w st0 st1 :
  to_images X (initial s w) = (inr tt, st0) →
  image_block X st0 = (inr tt, st1) →
  ∃ n,
    num_frames st1 = Some n
    ∧ if skip_image_processing s then
        image_rename_map st1 = None
        ∧ n ≠ 0%Z
        ∧ ∃ images w',
            list_images X (data (self st0)) (world st0) = (inr images, w')
            ∧ n = Z.of_nat (length images)
      else
        ∃ copied w' renamed,
          copy_images X (data (self st0)) (image_dir X (self st0)) (crop_factor s)
            (verbose s) (num_downscales s) None (world st0)
          = (inr copied, w')
          ∧ image_rename_map st1 = Some renamed
          ∧ renamed = Py.dict (names_of copied)
          ∧ n = Z.of_nat (size renamed)
          ∧ (n ≤ Z.of_nat (length copied))%Z
          ∧ (∀ k, is_Some (renamed !! k) ↔ k ∈ (names_of copied).*1)
          ∧ (NoDup (names_of copied).*1 →
             n = Z.of_nat (length copied)
             ∧ ∀ a b, (a, b) ∈ copied → renamed !! name a = Some (name b)).
Proof.
  intros Hpre Hblock.
  pose proof (wp_outcome _ _ _ _ _ _ (image_block_counts st0) Hblock) as Hcount.
  apply to_images_returns in Hpre as (s1 & w1 & evs & -> & Hretag & _).
  apply retagged_facts in Hretag as (Hopts & _).
  pose proof (same_options_fields _ _ Hopts) as
    (_ & Hv & _ & Hcrop & Hdown & _ & Hip & _).
  st_simpl. rewrite Hip, ?Hv, ?Hcrop, ?Hdown in Hcount.
  destruct (skip_image_processing s).
  - destruct Hcount as (Hrename & images & w' & Hlist & Hsome & Hn).
    eexists. split; [done|]. split; [done|]. split.
    + destruct images; [done|]. cbn [length]. lia.
    + by eexists _, _.
  - destruct Hcount as (copied & w' & Hcopy & Hrename & Hn).
    eexists. split; [done|]. exists copied, w', (Py.dict (names_of copied)).
    split; [done|]. split; [done|]. split; [done|]. split; [done|].
    assert (length (names_of copied) = length copied) as Hlen.
    { unfold names_of. by rewrite length_map. }
    split; [|split].
    + unfold Py.len. pose proof (dict_size (names_of copied)). lia.
    + apply dict_keys.
    + intros Hnodup. destruct (dict_distinct _ Hnodup) as [Hsize Hlookup].
      split; [unfold Py.len; lia|].
      intros a b Hab. apply Hlookup. unfold names_of.
      apply list_elem_of_fmap. by exists (a, b).
Qed.

(** *** The depth table on its way to the manifest *)

(** X11: with an external depth directory, a run that returns has handed
    the manifest writer the depth table built from the copied depth images:
    one entry per copied image, numbered from 1 in the order of the copy,
    under [depth] beside the image directory. *)
Theorem depth_table_reaches_the_manifest_writer s w st' :
  depth_path s ≠ "" →
  run X s w = (inr tt, st') →
  skip_image_processing s = false
  ∧ ∃ copied,
      copied_depth_images st' = Some copied
      ∧ ∀ s' n table mask rename,
          EvSaveTransforms s' n table mask rename ∈ trace st' →
          table = depth_table_of (parent (image_dir X (self st')) /' "depth") copied
          ∧ size table = length copied.
Proof.
  intros Hd Hrun.
  apply run_anatomy in Hrun
    as [(e & [=] & _)|(st4 & n & table & Hpre & Hn & Htable & Hquiet & Hrun)].
  destruct (to_manifest_reached X _ _ _ Hpre) as [Hcheck _].
  apply to_cameras_check_reached in Hcheck as (st2 & Hdepth & Hblock & _).
  apply to_depth_reached in Hdepth
    as (_ & _ & _ & (Hopts & _ & _ & Hlocals) & _).
  pose proof (same_options_fields _ _ Hopts) as
    (_ & _ & _ & _ & _ & _ & _ & _ & _ & _ & Hd2).
  apply String.eqb_neq in Hd as Hd'. rewrite Hd' in Hlocals.
  destruct (skip_image_processing s); cbn [orb] in Hlocals.
  { destruct Hlocals as [Hcopied _].
    rewrite depth_block_unbound in Hblock by (done || congruence). done. }
  split; [done|].
  destruct Hlocals as [[copied Hcopied] Hout].
  erewrite depth_block_external in Hblock by (done || congruence).
  injection Hblock as <-. st_simpl. injection Htable as <-.
  match type of Hrun with
  | manifest X ?st4 = _ => rewrite (manifest_eq X st4 n _ Hn eq_refl) in Hrun
  end.
  cbn zeta in Hrun.
  match type of Hrun with
  | match ?f with _ => _ end = _ => destruct f as [[f'|lines] w']; [done|]
  end.
  injection Hrun as <-.
  match goal with
  | |- context [logged ?ls ?st] =>
      destruct (logged_frame ls st) as (Hself & _ & _ & _ & _ & _ & Hcopied');
      pose proof (logged_trace ls st) as Htrace
  end.
  rewrite Hself, Hcopied', Htrace. st_simpl.
  exists copied. split; [done|].
  intros s' n' table mask rename Hin.
  rewrite !elem_of_app, !list_elem_of_singleton in Hin.
  destruct Hin as [[[Hin|Hin]|Hin]|Hin].
  - st_simpl. rewrite Forall_forall in Hquiet. by apply Hquiet in Hin.
  - injection Hin as -> -> -> -> ->. split; [done|]. apply depth_table_size.
  - done.
  - by apply list_elem_of_fmap in Hin as (line & [=] & _).
Qed.

End Coverage.

(** ** The claims on concrete runs *)

Lemma returns_intro {Path World : Type} (m : M Path World unit) (st : State Path World) :
  (m st).1 = inr tt → m st = (inr tt, (m st).2).
Proof. destruct (m st) as [r st']. cbn. by intros ->. Qed.

(** COLMAP skipped after copying three photographs: the table of the copy
    reaches the manifest writer. *)
Lemma name_table_forwarded_on_photographs :
  to_colmap (Posix.externals true) (initial Posix.colmap_skipped Posix.photographs)
  = (inr tt, (to_colmap (Posix.externals true)
                (initial Posix.colmap_skipped Posix.photographs)).2)
  ∧ renames_received
      (trace (run (Posix.externals true) Posix.colmap_skipped Posix.photographs).2)
    = [image_rename_map
         (to_colmap (Posix.externals true)
            (initial Posix.colmap_skipped Posix.photographs)).2].
Proof.
  assert (to_colmap (Posix.externals true) (initial Posix.colmap_skipped Posix.photographs)
          = (inr tt, (to_colmap (Posix.externals true)
                        (initial Posix.colmap_skipped Posix.photographs)).2)) as Hpre.
  { apply returns_intro. vm_compute. reflexivity. }
  split; [exact Hpre|].
  destruct (name_table_is_forwarded_iff_colmap_is_skipped (Posix.externals true)
              Posix.colmap_skipped Posix.photographs _ _ _ Hpre
              (surjective_pairing _)) as (_ & _ & _ & _ & Hforwarded).
  apply Hforwarded. vm_compute. reflexivity.
Defined.

(** Two external depth images next to three photographs: the depth table
    has the two entries [frame_00001.png] and [frame_00002.tiff]. *)
Lemma depth_table_on_photographs :
  to_depth (Posix.externals true) (initial Posix.external_depth Posix.photographs)
  = (inr tt, (to_depth (Posix.externals true)
                (initial Posix.external_depth Posix.photographs)).2)
  ∧ ∃ table : gmap Z Posix.path,
      image_id_to_depth_path
        (depth_block (Posix.externals true)
           (to_depth (Posix.externals true)
              (initial Posix.external_depth Posix.photographs)).2).2
      = Some table
      ∧ size table = 2
      ∧ table !! 1%Z = Some (Posix.of_string "/out/depth/frame_00001.png")
      ∧ table !! 2%Z = Some (Posix.of_string "/out/depth/frame_00002.tiff").
Proof.
  assert (to_depth (Posix.externals true) (initial Posix.external_depth Posix.photographs)
          = (inr tt, (to_depth (Posix.externals true)
                        (initial Posix.external_depth Posix.photographs)).2)) as Hpre.
  { apply returns_intro. vm_compute. reflexivity. }
  split; [exact Hpre|].
  destruct (depth_table_from_external_directory (Posix.externals true)
              Posix.external_depth Posix.photographs _ Hpre) as [_ Hexternal].
  destruct Hexternal as [_ Htable]; [done|].
  destruct (Htable
              (Posix.copies (Posix.of_string "/out/depth")
                 [Posix.of_string "/depth/a.png"; Posix.of_string "/depth/b.tiff"]))
    as (table & Hblock & Hsize & _ & Hentry).
  { vm_compute. reflexivity. }
  exists table. rewrite Hblock. split; [done|]. split; [exact Hsize|]. split.
  - exact (Hentry 0 (Posix.of_string "/depth/a.png") eq_refl).
  - exact (Hentry 1 (Posix.of_string "/depth/b.tiff") eq_refl).
Defined.

(** COLMAP ran and left no camera file: the run ends in the error of
    line 127. *)
Lemma missing_cameras_file_on_photographs :
  to_cameras_check (Posix.externals false) (initial Posix.defaults Posix.photographs)
  = (inr tt, (to_cameras_check (Posix.externals false)
                (initial Posix.defaults Posix.photographs)).2)
  ∧ (run (Posix.externals false) Posix.defaults Posix.photographs).1
    = inl (RuntimeError
             "Could not find existing COLMAP results (colmap/sparse/0/cameras.bin).").
Proof.
  assert (to_cameras_check (Posix.externals false)
            (initial Posix.defaults Posix.photographs)
          = (inr tt, (to_cameras_check (Posix.externals false)
                        (initial Posix.defaults Posix.photographs)).2)) as Hpre.
  { apply returns_intro. vm_compute. reflexivity. }
  split; [exact Hpre|].
  destruct (missing_cameras_file_is_fatal_when_required (Posix.externals false)
              Posix.defaults Posix.photographs _ Hpre) as [Hfatal _].
  { vm_compute. reflexivity. }
  destruct Hfatal as [Hrun _]; [by left|].
  rewrite Hrun. reflexivity.
Defined.

(** Against C3 as stated: COLMAP skipped, the default model path, no
    [cameras.bin] anywhere, and the run returns, having invoked the manifest
    writer. *)
Lemma skipped_colmap_does_not_require_cameras_file :
  skip_colmap Posix.colmap_skipped = true
  ∧ path_exists (Posix.externals true)
      (absolute_colmap_model_path (Posix.externals true) Posix.colmap_skipped
         /' "cameras.bin")
      (world (run (Posix.externals true) Posix.colmap_skipped Posix.photographs).2)
    = false
  ∧ (run (Posix.externals true) Posix.colmap_skipped Posix.photographs).1 = inr tt
  ∧ length (filter (λ ev, is_save_transforms ev = true)
              (trace (run (Posix.externals true) Posix.colmap_skipped
                        Posix.photographs).2))
    = 1.
Proof. vm_compute. by repeat split. Qed.

(** No photograph at all: the copy step of the specification stops the
    run. *)
Lemma zero_images_on_an_empty_world :
  list_images (Posix.externals true) (data Posix.defaults) [] = (inr [], [])
  ∧ ∃ st',
      run (with_checked_copy (Posix.externals true)) Posix.defaults []
      = (inl (Propagated copy_images_ ZeroUsableImages), st')
      ∧ Forall not_yet_colmap (trace st').
Proof.
  split; [reflexivity|].
  apply (zero_images_abort_before_colmap (Posix.externals true) Posix.defaults []
           (to_images (with_checked_copy (Posix.externals true))
              (initial Posix.defaults [])).2 []).
  - reflexivity.
  - apply returns_intro. vm_compute. reflexivity.
  - vm_compute. reflexivity.
Defined.

(** A circular mask was generated and no per-frame masks are configured:
    the manifest writer is handed the literal. *)
Lemma mask_reference_on_photographs :
  to_manifest (Posix.externals true) (initial Posix.circle_mask Posix.photographs)
  = (inr tt, (to_manifest (Posix.externals true)
                (initial Posix.circle_mask Posix.photographs)).2)
  ∧ masks_received
      (trace (run (Posix.externals true) Posix.circle_mask Posix.photographs).2)
    = [Some (MaskStr "masks/mask.png")].
Proof.
  assert (to_manifest (Posix.externals true) (initial Posix.circle_mask Posix.photographs)
          = (inr tt, (to_manifest (Posix.externals true)
                        (initial Posix.circle_mask Posix.photographs)).2)) as Hpre.
  { apply returns_intro. vm_compute. reflexivity. }
  split; [exact Hpre|].
  destruct (mask_reference_at_manifest (Posix.externals true)
              Posix.circle_mask Posix.photographs _ _ _ Hpre (surjective_pairing _))
    as (mask_path & -> & _ & Hliteral & _).
  f_equal. apply Hliteral; vm_compute; reflexivity.
Defined.

(** Against C5 as stated, both ways.  With the masks directory on disk and no
    per-frame masks configured the manifest writer is handed the literal, not
    the directory; with per-frame masks configured it is handed the
    directory, not the literal. *)
Lemma mask_reference_is_the_other_way_round :
  (frame_mask_path Posix.circle_mask = ""
   ∧ path_exists (Posix.externals true) (Posix.of_string "/out/masks")
       (world (to_manifest (Posix.externals true)
                 (initial Posix.circle_mask Posix.photographs)).2)
     = true
   ∧ masks_received
       (trace (run (Posix.externals true) Posix.circle_mask Posix.photographs).2)
     = [Some (MaskStr "masks/mask.png")])
  ∧ (frame_mask_path Posix.frame_masks ≠ ""
     ∧ path_exists (Posix.externals true) (Posix.of_string "/out/masks")
         (world (to_manifest (Posix.externals true)
                   (initial Posix.frame_masks Posix.photographs)).2)
       = true
     ∧ masks_received
         (trace (run (Posix.externals true) Posix.frame_masks Posix.photographs).2)
       = [Some (MaskDir (Posix.of_string "/out/masks"))]).
Proof. vm_compute. by repeat split. Qed.

(** A model path other than the default that does not exist. *)
Lemma missing_model_path_on_photographs :
  run (Posix.externals true) Posix.model_elsewhere Posix.photographs
  = (inl (RuntimeError "The colmap-model-path /out/elsewhere/sparse does not exist."),
     initial Posix.model_elsewhere Posix.photographs).
Proof.
  destruct (explicit_model_path_is_checked_first (Posix.externals true)
              Posix.model_elsewhere Posix.photographs) as [_ Hmissing]; [done|].
  rewrite Hmissing; reflexivity.
Defined.

(** Panoramas: COLMAP sees the object re-tagged as perspective, reading the
    generated projections. *)
Lemma panoramas_are_retagged :
  camera_type Posix.panoramas = "equirectangular"
  ∧ ∃ s',
      EvRunColmap s'
        ∈ trace (run (Posix.externals true) Posix.panoramas Posix.photographs).2
      ∧ camera_type s' = "perspective"
      ∧ data s' = Posix.of_string "/in/planar_projections".
Proof.
  split; [reflexivity|].
  assert (EvRunColmap
            (with_camera_type "perspective"
               (with_data (Posix.of_string "/in/planar_projections") Posix.panoramas))
          ∈ trace (run (Posix.externals true) Posix.panoramas Posix.photographs).2)
    as Hin.
  { apply (list_elem_of_lookup_2 _ 5). vm_compute. reflexivity. }
  destruct (equirectangular_is_retagged_before_downstream (Posix.externals true)
              Posix.panoramas Posix.photographs _ _ eq_refl (surjective_pairing _)
              _ Hin eq_refl) as (size & d & w1 & w2 & _ & _ & Hsees & _).
  eexists. split; [exact Hin|]. by split.
Defined.

(** An external depth directory with image processing skipped. *)
Lemma unbound_depth_images_on_photographs :
  (run (Posix.externals true) Posix.external_depth_unprocessed Posix.photographs).1
  = inl (UnboundLocalError "copied_depth_images").
Proof.
  destruct (external_depth_needs_image_processing (Posix.externals true)
              Posix.external_depth_unprocessed Posix.photographs) as [Hunbound _];
    [done|reflexivity|].
  rewrite (Hunbound
             (to_depth (Posix.externals true)
                (initial Posix.external_depth_unprocessed Posix.photographs)).2).
  - reflexivity.
  - apply returns_intro. vm_compute. reflexivity.
Defined.

(** A configured crop factor reaches the copy and not the mask. *)
Example crop_factor_on_photographs :
  omap (λ ev, match ev with
              | EvCopyImages _ _ crop _ _ _ | EvSaveMask _ _ crop _ _ => Some crop
              | _ => None
              end)
       (trace (run (Posix.externals true) Posix.circle_mask Posix.photographs).2)
  = [(0.0, 0.25, 0.0, 0.0)%float; zero_crop].
Proof. vm_compute. reflexivity. Qed.

Lemma outcome_intro {A B : Type} (p : A * B) (a : A) : p.1 = a → p = (a, p.2).
Proof. destruct p. cbn. by intros ->. Qed.

(** Image processing skipped on a world without photographs. *)
Lemma zero_images_on_an_empty_world_when_skipping :
  list_images (Posix.externals true) (data Posix.unprocessed) [] = (inr [], [])
  ∧ ∃ st',
      run (Posix.externals true) Posix.unprocessed []
      = (inl (RuntimeError "No usable images in the data folder."), st')
      ∧ Forall not_yet_colmap (trace st').
Proof.
  split; [reflexivity|].
  apply (zero_images_abort_when_processing_is_skipped (Posix.externals true)
           Posix.unprocessed []
           (to_images (Posix.externals true) (initial Posix.unprocessed [])).2 []).
  - reflexivity.
  - apply returns_intro. vm_compute. reflexivity.
  - vm_compute. reflexivity.
Defined.

(** The run that reads [copied_depth_images] unbound. *)
Lemma unbound_local_on_photographs :
  depth_path Posix.external_depth_unprocessed ≠ ""
  ∧ skip_image_processing Posix.external_depth_unprocessed = true.
Proof.
  destruct (only_copied_depth_images_can_be_unbound (Posix.externals true)
              Posix.external_depth_unprocessed Posix.photographs
              "copied_depth_images"
              (run (Posix.externals true) Posix.external_depth_unprocessed
                 Posix.photographs).2) as (_ & Hdepth & Hskip).
  - apply outcome_intro. vm_compute. reflexivity.
  - by split.
Defined.

(** ** More of [main] on concrete runs *)

(** COLMAP is not installed: the run ends in its failure, and the
    invocation of COLMAP is the last entry of the trace. *)
Lemma colmap_failure_on_photographs :
  (run Posix.without_colmap Posix.defaults Posix.photographs).1
  = inl (Propagated run_colmap_ (Failed "colmap: command not found"))
  ∧ ∃ before ev,
      trace (run Posix.without_colmap Posix.defaults Posix.photographs).2 = before ++ [ev]
      ∧ invoker ev = Some run_colmap_.
Proof.
  split; [vm_compute; reflexivity|].
  apply (collaborator_failure_ends_the_run Posix.without_colmap Posix.defaults
           Posix.photographs run_colmap_ (Failed "colmap: command not found")).
  apply outcome_intro. vm_compute. reflexivity.
Defined.

(** The error of line 53 is one of the four. *)
Lemma missing_model_path_is_as_coded :
  (run (Posix.externals true) Posix.model_elsewhere Posix.photographs).1
  = inl (RuntimeError "The colmap-model-path /out/elsewhere/sparse does not exist.")
  ∧ runtime_error_of (Posix.externals true) Posix.model_elsewhere
      (run (Posix.externals true) Posix.model_elsewhere Posix.photographs).2
      "The colmap-model-path /out/elsewhere/sparse does not exist.".
Proof.
  split; [vm_compute; reflexivity|].
  apply (runtime_errors_are_the_four_of_the_source (Posix.externals true)
           Posix.model_elsewhere Posix.photographs).
  apply outcome_intro. vm_compute. reflexivity.
Defined.


(** Three photographs copied: the frame count is the size of the table of
    names. *)
Lemma frame_count_on_photographs :
  to_images (Posix.externals true) (initial Posix.defaults Posix.photographs)
  = (inr tt, (to_images (Posix.externals true)
                (initial Posix.defaults Posix.photographs)).2)
  ∧ ∃ renamed,
      image_rename_map
        (to_colmap (Posix.externals true) (initial Posix.defaults Posix.photographs)).2
      = Some renamed
      ∧ num_frames
          (to_colmap (Posix.externals true) (initial Posix.defaults Posix.photographs)).2
        = Some (Z.of_nat (size renamed)).
Proof.
  assert (to_images (Posix.externals true) (initial Posix.defaults Posix.photographs)
          = (inr tt, (to_images (Posix.externals true)
                        (initial Posix.defaults Posix.photographs)).2)) as Hpre.
  { apply returns_intro. vm_compute. reflexivity. }
  split; [exact Hpre|].
  destruct (frame_count_on_leaving_the_image_stage (Posix.externals true)
              Posix.defaults Posix.photographs _
              (to_colmap (Posix.externals true)
                 (initial Posix.defaults Posix.photographs)).2 Hpre)
    as (n & Hn & Hcount).
  - transitivity (to_colmap (Posix.externals true)
                    (initial Posix.defaults Posix.photographs)).
    + symmetry. exact (bind_returns _ _ _ _ _ Hpre).
    + apply returns_intro. vm_compute. reflexivity.
  - change (skip_image_processing Posix.defaults) with false in Hcount.
    cbv iota in Hcount.
    destruct Hcount as (copied & w' & renamed & _ & Hrename & _ & Hsize & _).
    exists renamed. split; [exact Hrename|]. rewrite Hn. f_equal. exact Hsize.
Defined.

(** Two external depth images: the manifest writer receives a table of two
    entries. *)
Lemma depth_table_is_handed_over_on_photographs :
  depth_path Posix.external_depth ≠ ""
  ∧ (run (Posix.externals true) Posix.external_depth Posix.photographs).1 = inr tt
  ∧ ∃ copied,
      copied_depth_images
        (run (Posix.externals true) Posix.external_depth Posix.photographs).2
      = Some copied.
Proof.
  split; [done|]. split; [vm_compute; reflexivity|].
  destruct (depth_table_reaches_the_manifest_writer (Posix.externals true)
              Posix.external_depth Posix.photographs
              (run (Posix.externals true) Posix.external_depth Posix.photographs).2)
    as (_ & copied & Hcopied & _).
  - done.
  - apply outcome_intro. vm_compute. reflexivity.
  - by exists copied.
Defined.
